(** * Data_Preparation.ipynb: the EEG epoching pipeline, embedded and verified

    A shallow embedding of the data-preparation notebook of the seizure
    detection project: the Normalizer ([preprocess]), the Seizure Interval
    Extractor ([seizure_annotations]), the Epoching Engine ([create_epochs]),
    Labeling ([labeling], [reshape_df]), the Class Balancer
    ([epochs_seizure_based]), the export step and the large-file cell.

    Conventions of the embedding.
    - Python floats (seconds, sampling rates, microvolts) are rationals [Q];
      IEEE rounding is outside the model.  Comparisons use [Qle_bool] and
      [Qeq_bool], as the pandas comparisons do on the values.
    - pandas integer columns (epoch index, the 0/1 label) are [Z].
    - A function that can raise returns in the monad [M]: the lines it
      prints and the files it writes, with either the exception or the value.
    - A name that a function body looks up in the notebook's module
      namespace at call time ([np], [df]) is looked up in an explicit
      [globals] argument; [notebook_globals] is what the notebook's own
      cells bind.
    - MNE and the feather writer are external collaborators: MNE's signal
      processing calls are recorded in the recording's [history]; reading,
      epoching and random sampling are the fields of [External]. *)

From Stdlib Require Import String Ascii DecimalString.
From Stdlib Require Import ZArith QArith Qround Bool Arith Lia.
From Stdlib Require Import List Permutation Sorted.
Import ListNotations.

Close Scope Q_scope.
Open Scope string_scope.
Open Scope list_scope.

Infix "+s+" := String.append (at level 60, right associativity).

(** ** Python exceptions *)

(** Every class below derives from [Exception], so [except Exception]
    catches each of them. *)
Inductive exn : Type :=
| NameError (name : string)
| UnboundLocalError (name : string)
| AttributeError (msg : string)
| TypeError (msg : string)
| ValueError (msg : string)
| IndexError (msg : string)
| KeyError (key : string)
| MergeError (msg : string)
| MemoryError
| Exception (msg : string).

(** [str(e)], what [print(e)] shows. *)
Definition exn_message (e : exn) : string :=
  match e with
  | NameError n => "name '" +s+ n +s+ "' is not defined"
  | UnboundLocalError n =>
      "local variable '" +s+ n +s+ "' referenced before assignment"
  | AttributeError m => m
  | TypeError m => m
  | ValueError m => m
  | IndexError m => m
  | KeyError k => "'" +s+ k +s+ "'"
  | MergeError m => m
  | MemoryError => ""
  | Exception m => m
  end.

Definition result (A : Type) : Type := (exn + A)%type.

(** ** The notebook's module namespace *)

Definition globals : Type := list string.

Definition bound (name : string) (G : globals) : bool :=
  existsb (String.eqb name) G.

(** The import cell runs, in order, [import platform], [import os],
    [import gc], [import numpy as numpy], [import pandas as pd],
    [import mne]: these six names are bound ([numpy] under its own name, no
    alias [np]) before the cell's last line, [mnse.set_log_level('ERROR')],
    raises.  The later cells bind [eeg_channels] and the functions; the
    cell of [select_edf_files] does not parse and binds nothing. *)
Definition notebook_globals : globals :=
  [ "platform"; "os"; "gc"; "numpy"; "pd"; "mne"; "eeg_channels";
    "preprocess"; "seizure_annotations"; "create_epochs"; "labeling";
    "reshape_df"; "epochs_seizure_based"; "extract_subject_id";
    "df_conversion"; "define_paths"; "load_raw"; "loading"; "preprocessing" ].

(** Evaluating a global name. *)
Definition lookup_global (G : globals) (name : string) : result unit :=
  if bound name G then inr tt else inl (NameError name).

Definition eeg_channels : list string :=
  [ "Fp1"; "Fp2"; "F3";
    "F4"; "F7"; "F8";
    "Fz"; "C3"; "C4";
    "Cz"; "T3"; "T4";
    "T5"; "T6"; "P3";
    "P4"; "Pz"; "O1"; "O2" ].

(** ** Data model *)

(** One annotated event of a recording. *)
Record Annotation : Type := mkAnnotation {
  a_onset : Q;
  a_duration : Q;
  description : string
}.

(** The MNE calls applied to a recording, most recent last. *)
Inductive mne_step : Type :=
| SetChannelTypes
| SetMontage (name : string)
| NotchFilter (freqs : list Z)
| Filter (l_freq h_freq : Q)
| SetEEGReference (ref_channels : string)
| Resample (to : Q)
| LoadData
| SetAnnotations.

(** [mne.io.Raw], as far as the notebook looks at it. *)
Record Raw : Type := mkRaw {
  ch_names : list string;
  sfreq : Q;                      (* raw.info['sfreq'] *)
  last_samp : Z;                  (* raw.last_samp *)
  annotations : list Annotation;  (* raw.annotations, in MNE's order *)
  fits_in_memory : bool;          (* whether load_data can allocate *)
  history : list mne_step
}.

Definition apply_step (s : mne_step) (raw : Raw) : Raw :=
  mkRaw (ch_names raw) (sfreq raw) (last_samp raw) (annotations raw)
        (fits_in_memory raw) (history raw ++ [s]).

(** [raw.resample(sfreq=to)]: the rate and the history.  MNE also
    rescales the sample indices; [last_samp] is left as it is here, and
    nothing below reads it on a resampled recording. *)
Definition resample (to : Q) (raw : Raw) : Raw :=
  mkRaw (ch_names raw) to (last_samp raw) (annotations raw)
        (fits_in_memory raw) (history raw ++ [Resample to]).

Definition set_annotations (anns : list Annotation) (raw : Raw) : Raw :=
  mkRaw (ch_names raw) (sfreq raw) (last_samp raw) anns
        (fits_in_memory raw) (history raw ++ [SetAnnotations]).

(** A row of [df_sz_annotations]: columns [onset], [duration], [end], in
    this order. *)
Record Interval : Type := mkInterval {
  onset : Q;
  duration : Q;
  end_ : Q
}.

(** A row of [epochs.to_data_frame()] once [condition] is dropped: the
    columns [time], [epoch] and one value per channel column. *)
Record Sample : Type := mkSample {
  time : Q;
  epoch : Z;
  values : list Q
}.

(** A table whose channel columns are named by [channels]; the other
    columns are the fields of the row type. *)
Record Frame (R : Type) : Type := mkFrame {
  channels : list string;
  rows : list R
}.
Arguments mkFrame {R} _ _.
Arguments channels {R} _.
Arguments rows {R} _.

(** A row of the table [create_epochs] returns: the sample and [count]. *)
Record Timed : Type := mkTimed {
  sample : Sample;
  count : Q
}.

(** A row of a labelled per-sample table: the sample, the columns that are
    neither channels nor the label ([duration] after [labeling]; a missing
    value is [None]) and the label [seizure]. *)
Record Labeled : Type := mkLabeled {
  lsample : Sample;
  extra : list (string * option Q);
  seizure : Z
}.

(** A row of the reshaped table: the epoch index, one array per name of
    [eeg_channels] (in that order) and the label. *)
Record EpochRow : Type := mkEpochRow {
  e_epoch : Z;
  arrays : list (list Q);
  e_seizure : Z
}.

Definition EpochTable : Type := list EpochRow.

(** The table handed to the feather writer: column [subject] first. *)
Definition FeatherTable : Type := list (string * EpochRow).

(** ** Effects: printed lines, written files, exceptions *)

Inductive event : Type :=
| Printed (line : string)
| ToFeather (path : string) (table : FeatherTable).

Definition M (A : Type) : Type := (list event * result A)%type.

Definition ret {A} (a : A) : M A := ([], inr a).
Definition raise {A} (e : exn) : M A := ([], inl e).
Definition print (line : string) : M unit := ([Printed line], inr tt).
Definition lift {A} (r : result A) : M A := ([], r).

Definition bind {A B} (m : M A) (f : A -> M B) : M B :=
  match m with
  | (out, inl e) => (out, inl e)
  | (out, inr a) => let (out', r) := f a in (out ++ out', r)
  end.

(** [try: m  except Exception as e: h e]. *)
Definition try_except {A} (m : M A) (h : exn -> M A) : M A :=
  match m with
  | (out, inl e) => let (out', r) := h e in (out ++ out', r)
  | (out, inr a) => (out, inr a)
  end.

Definition output {A} (m : M A) : list event := fst m.
Definition value {A} (m : M A) : result A := snd m.

Notation "x <- m ;; k" := (bind m (fun x => k))
  (at level 61, m at next level, right associativity).
Notation "m ;; k" := (bind m (fun _ => k))
  (at level 61, right associativity).

Fixpoint mapM {A B} (f : A -> M B) (l : list A) : M (list B) :=
  match l with
  | [] => ret []
  | x :: l' => y <- f x ;; ys <- mapM f l' ;; ret (y :: ys)
  end.

(** The files a computation wrote. *)
Fixpoint feather_files (out : list event) : list (string * FeatherTable) :=
  match out with
  | [] => []
  | ToFeather p t :: out' => (p, t) :: feather_files out'
  | Printed _ :: out' => feather_files out'
  end.

Definition show_nat (n : nat) : string :=
  NilZero.string_of_uint (Nat.to_uint n).

Definition show_Z (z : Z) : string :=
  NilZero.string_of_int (Z.to_int z).

(** ** Clean Data: [preprocess] *)

(** [np.arange(start, stop, step)] on integers, [step > 0]. *)
Definition arange (start stop step : Z) : list Z :=
  map (fun i => (start + step * Z.of_nat i)%Z)
      (seq 0 (Z.to_nat ((stop - start + step - 1) / step))).

(** [int(x)] on a float: truncation towards zero. *)
Definition int_of_float (x : Q) : Z := Z.quot (Qnum x) (Z.pos (Qden x)).

(** [preprocess(raw)].  The MNE calls mutate [raw] in place, so what is
    returned after a caught exception keeps the steps already applied.
    The MNE calls themselves are taken to succeed.  When one raises (the
    notch filter at 100 Hz does for a source rate of 200 Hz or less, and
    the filters do on data that is not loaded), the same handler prints
    the error and the recording is returned as it then is, at its source
    rate: what is proved below for every namespace holds on that path
    too, and nothing is proved about the filtering or the resampling of
    a recording. *)
Definition preprocess (G : globals) (raw : Raw) : M Raw :=
  let raw := apply_step SetChannelTypes raw in
  let raw := apply_step (SetMontage "standard_1020") raw in
  (* the argument np.arange(50,101,50) is evaluated before notch_filter *)
  match lookup_global G "np" with
  | inl e => print (exn_message e) ;; ret raw
  | inr _ =>
      let raw := apply_step (NotchFilter (arange 50 101 50)) raw in
      let raw := apply_step (Filter (1 # 10) 70) raw in
      let raw := apply_step (SetEEGReference "average") raw in
      print "Cleaned and filtered" ;;
      if negb (Qeq_bool (sfreq raw) 256) then
        print ("Sampling frequency is " +s+ show_Z (int_of_float (sfreq raw))
               +s+ " Hz") ;;
        let raw := resample 256 raw in
        print "Resampled to 256 Hz" ;;
        ret raw
      else ret raw
  end.

(** ** Construct Data: [seizure_annotations] *)

Definition is_seizure (a : Annotation) : bool :=
  String.eqb (description a) "AANVAL".

Definition interval_of (a : Annotation) : Interval :=
  mkInterval (a_onset a) (a_duration a) (a_onset a + a_duration a)%Q.

(** [seizure_annotations(raw)]: the recording with its annotations replaced
    by the selected ones, and the table [df_sz_annotations]. *)
Definition seizure_annotations (raw : Raw) : M (Raw * list Interval) :=
  let sz_annotations := filter is_seizure (annotations raw) in
  print ("Found " +s+ show_nat (length sz_annotations) +s+ " seizures") ;;
  let raw := set_annotations sz_annotations raw in
  let df_sz_annotations := map interval_of sz_annotations in
  ret (raw, df_sz_annotations).

(** ** External collaborators *)

(** What the pipeline takes from outside the notebook.
    - [read_raw_edf file]: [mne.io.read_raw_edf(file, infer_types=True,
      include=eeg_channels)].
    - [epochs_to_data_frame raw duration]: [mne.make_fixed_length_epochs]
      followed by [to_data_frame()], with the [condition] column left out.
      (The notebook passes [overlap] as third positional argument, which is
      MNE's [preload]; MNE's [overlap] keeps its default 0.)
    - [float32 x]: the value [x] stored in a [np.float32] array.
    - [choice n k]: the [k] positions that a pandas [sample(n=k,
      random_state=42)] draws from [n] rows. *)
Record External : Type := mkExternal {
  read_raw_edf : string -> result Raw;
  epochs_to_data_frame : Raw -> Q -> result (Frame Sample);
  float32 : Q -> Q;
  choice : nat -> nat -> list nat
}.

(** Sampling without replacement: [k] distinct positions below [n]. *)
Definition choice_ok (ch : nat -> nat -> list nat) : Prop :=
  forall n k, k <= n ->
    length (ch n k) = k /\ NoDup (ch n k) /\ Forall (fun i => i < n) (ch n k).

(** ** Construct Data: [create_epochs] *)

Fixpoint index_of (c : string) (cols : list string) : option nat :=
  match cols with
  | [] => None
  | c' :: cols' =>
      if String.eqb c c' then Some 0
      else option_map S (index_of c cols')
  end.

Definition has_column (c : string) (cols : list string) : bool :=
  existsb (String.eqb c) cols.

(** [df_epochs['count'] = df_epochs.index / 256] on the default index. *)
Definition add_count (df : Frame Sample) : Frame Timed :=
  mkFrame (channels df)
    (map (fun p => mkTimed (snd p) (Z.of_nat (fst p) # 256))
         (combine (seq 0 (length (rows df))) (rows df))).

(** The test [if 'Pz' not in df.epochs.columns] reads the global [df], not
    the local [df_epochs].  When [df] is bound it is the table an earlier
    iteration of the driver loop assigned (columns [subject], [epoch], the
    channels, [seizure]), which has no attribute [epochs]. *)
Definition eval_df_epochs_columns (G : globals) : result (list string) :=
  match lookup_global G "df" with
  | inl e => inl e
  | inr _ => inl (AttributeError "'DataFrame' object has no attribute 'epochs'")
  end.

Definition Qsum (l : list Q) : Q := fold_right Qplus 0%Q l.

(** [df_epochs[eeg_cols].mean(axis=1)] where [eeg_cols] is every column but
    [count]: the columns [time] and [epoch] and the channel columns. *)
Definition mean_of_eeg_cols (r : Timed) : Q :=
  let cells := time (sample r) :: inject_Z (epoch (sample r))
               :: values (sample r) in
  (Qsum cells / inject_Z (Z.of_nat (length cells)))%Q.

Definition fill_Pz (df : Frame Timed) : Frame Timed :=
  mkFrame (channels df ++ ["Pz"])
    (map (fun r =>
            mkTimed (mkSample (time (sample r)) (epoch (sample r))
                              (values (sample r) ++ [mean_of_eeg_cols r]))
                    (count r))
         (rows df)).

(** Round half to even, as [numpy.round] does. *)
Definition rint (x : Q) : Z :=
  let f := Qfloor x in
  match Qcompare (x - inject_Z f) (1 # 2) with
  | Lt => f
  | Gt => (f + 1)%Z
  | Eq => if Z.even f then f else (f + 1)%Z
  end.

Definition round2 (x : Q) : Q := Qmake (rint (x * 100)) 100.

Fixpoint update_nth {A} (i : nat) (f : A -> A) (l : list A) : list A :=
  match l, i with
  | [], _ => []
  | x :: l', O => f x :: l'
  | x :: l', S i' => x :: update_nth i' f l'
  end.

Definition round_column (i : nat) (df : Frame Timed) : Frame Timed :=
  mkFrame (channels df)
    (map (fun r =>
            mkTimed (mkSample (time (sample r)) (epoch (sample r))
                              (update_nth i round2 (values (sample r))))
                    (count r))
         (rows df)).

(** [for col in eeg_channels: df_epochs[col] = df_epochs[col].round(2)]:
    the table as rounded so far, and the [KeyError] that stopped the loop. *)
Fixpoint round_columns (cols : list string) (df : Frame Timed)
  : Frame Timed * option exn :=
  match cols with
  | [] => (df, None)
  | c :: cols' =>
      match index_of c (channels df) with
      | None => (df, Some (KeyError c))
      | Some i => round_columns cols' (round_column i df)
      end
  end.

(** [create_epochs(raw, duration, overlap)].  Every exception raised inside
    the [try] is printed; [return df_epochs] then returns the table in the
    state it had when the exception was raised. *)
Definition create_epochs (X : External) (G : globals) (raw : Raw)
    (duration overlap : Q) : M (Frame Timed) :=
  match epochs_to_data_frame X raw duration with
  | inl e =>
      print (exn_message e) ;;
      raise (UnboundLocalError "df_epochs")
  | inr df0 =>
      print "Epoched" ;;
      print "Converted to DataFrame" ;;
      let df_epochs := add_count df0 in
      match eval_df_epochs_columns G with
      | inl e => print (exn_message e) ;; ret df_epochs
      | inr columns =>
          df_epochs <-
            (if negb (has_column "Pz" columns) then
               print "Pz is missing" ;;
               let df_epochs := fill_Pz df_epochs in
               print "Filled with mean values" ;;
               ret df_epochs
             else ret df_epochs) ;;
          match round_columns eeg_channels df_epochs with
          | (df_epochs, Some e) => print (exn_message e) ;; ret df_epochs
          | (df_epochs, None) => print "Values rounded" ;; ret df_epochs
          end
      end
  end.

(** ** Integrate data: [labeling] *)

(** [Series.is_monotonic_increasing]. *)
Fixpoint is_monotonic (l : list Q) : bool :=
  match l with
  | x :: ((y :: _) as l') => Qle_bool x y && is_monotonic l'
  | _ => true
  end.

(** The backward as-of match of [pd.merge_asof]: scan the right keys while
    they are [<= t]; the match is the last row passed, if any. *)
Fixpoint asof_backward (t : Q) (right : list Interval)
    (best : option Interval) : option Interval :=
  match right with
  | [] => best
  | iv :: right' =>
      if Qle_bool (onset iv) t then asof_backward t right' (Some iv)
      else best
  end.

(** [pd.merge_asof(left, right, left_on='count', right_on='onset')].
    - An empty [df_sz_annotations] has [object] columns, and pandas refuses
      to merge a [float64] key with an [object] key.
    - Both keys must be sorted.
    A sample before the first onset gets missing values ([None]). *)
Definition merge_asof (left : list Timed) (right : list Interval)
  : result (list (Timed * option Interval)) :=
  match right with
  | [] => inl (MergeError
      "incompatible merge keys [0] dtype('float64') and dtype('O'), must be the same type")
  | _ =>
      if negb (is_monotonic (map count left)) then
        inl (ValueError "left keys must be sorted")
      else if negb (is_monotonic (map onset right)) then
        inl (ValueError "right keys must be sorted")
      else inr (map (fun r => (r, asof_backward (count r) right None)) left)
  end.

(** [(df['count'] >= df['onset']) & (df['count'] <= df['end'])]; a
    comparison with a missing value is false. *)
Definition in_seizure (t : Q) (m : option Interval) : bool :=
  match m with
  | Some iv => Qle_bool (onset iv) t && Qle_bool t (end_ iv)
  | None => false
  end.

(** [labeling(df_epochs, df_sz_annotations)]: the columns [count], [onset]
    and [end] are dropped, [duration] stays. *)
Definition labeling (df_epochs : Frame Timed) (df_sz_annotations : list Interval)
  : M (Frame Labeled) :=
  df <- lift (merge_asof (rows df_epochs) df_sz_annotations) ;;
  let df :=
    map (fun p : Timed * option Interval =>
           let (r, m) := p in
           mkLabeled (sample r)
                     [("duration", option_map duration m)]
                     (if in_seizure (count r) m then 1%Z else 0%Z))
        df in
  print "Labeled" ;;
  ret (mkFrame (channels df_epochs) df).

(** ** Format Data: [reshape_df] *)

Fixpoint insert_sorted (x : Z) (l : list Z) : list Z :=
  match l with
  | [] => [x]
  | y :: l' => if (x <=? y)%Z then x :: l else y :: insert_sorted x l'
  end.

Definition sort_values (l : list Z) : list Z := fold_right insert_sorted [] l.

Definition occurrences (v : Z) (l : list Z) : nat := count_occ Z.eq_dec l v.

Definition max_occurrences (l : list Z) : nat :=
  fold_right Nat.max 0 (map (fun v => occurrences v l) l).

(** [Series.mode()]: the values that occur most often, in ascending order.
    pandas collects the values of maximal count and sorts them
    ([np.sort]) before it returns them, so the order in which the samples
    come plays no part. *)
Definition mode (l : list Z) : list Z :=
  sort_values
    (filter (fun v => (occurrences v l =? max_occurrences l)%nat)
            (nodup Z.eq_dec l)).

(** [s.iat[0]]. *)
Definition iat0 (s : list Z) : result Z :=
  match s with
  | [] => inl (IndexError "index 0 is out of bounds for axis 0 with size 0")
  | v :: _ => inr v
  end.

(** [lambda x: x.mode().iat[0]], the label of one epoch. *)
Definition label_of_epoch (x : list Z) : result Z := iat0 (mode x).

(** [df.groupby('epoch')]: the group keys in ascending order and the rows
    of a group in table order. *)
Definition group_keys (df : Frame Labeled) : list Z :=
  sort_values (nodup Z.eq_dec (map (fun r => epoch (lsample r)) (rows df))).

Definition group (df : Frame Labeled) (k : Z) : list Labeled :=
  filter (fun r => (epoch (lsample r) =? k)%Z) (rows df).

(** [df.groupby('epoch')[channel].apply(lambda x: np.array(x.tolist(),
    dtype=np.float32))]: selecting the column comes first; the lambda looks
    [np] up each time it is called, once per group. *)
Definition channel_arrays (X : External) (G : globals) (df : Frame Labeled)
    (keys : list Z) (channel : string) : M (list (list Q)) :=
  match index_of channel (channels df) with
  | None => raise (KeyError ("Column not found: " +s+ channel))
  | Some i =>
      mapM (fun k =>
              _ <- lift (lookup_global G "np") ;;
              ret (map (fun r => float32 X (nth i (values (lsample r)) 0%Q))
                       (group df k)))
           keys
  end.

(** [pd.DataFrame(agg)] with the label column and the index reset: row [j]
    takes key [j], entry [j] of every channel's series and label [j]. *)
Fixpoint build_rows (keys : list Z) (agg : list (list (list Q)))
    (labels : list Z) : EpochTable :=
  match keys, labels with
  | k :: keys', l :: labels' =>
      mkEpochRow k (map (hd []) agg) l
      :: build_rows keys' (map (@tl _) agg) labels'
  | _, _ => []
  end.

Definition reshape_df (X : External) (G : globals) (df : Frame Labeled)
  : M EpochTable :=
  let keys := group_keys df in
  agg <- mapM (channel_arrays X G df keys) eeg_channels ;;
  seizure_label <-
    mapM (fun k => lift (label_of_epoch (map seizure (group df k)))) keys ;;
  print "Reshaped" ;;
  ret (build_rows keys agg seizure_label).

(** The reading of "first-occurring mode" by the samples' order: the first
    sample value, in epoch order, whose number of occurrences is maximal.
    This is the tie-break the specification words; [label_of_epoch] is the
    one the notebook runs. *)
Definition first_occurring_mode (x : list Z) : option Z :=
  find (fun v => (occurrences v x =? max_occurrences x)%nat) x.

(** ** Format Data: [epochs_seizure_based] *)

Definition take {A} (positions : list nat) (l : list A) : list A :=
  flat_map (fun i => match nth_error l i with
                     | Some x => [x]
                     | None => []
                     end) positions.

(** [df.sample(n=n, random_state=42)]. *)
Definition sample_rows {A} (X : External) (n : nat) (l : list A)
  : result (list A) :=
  if (n <=? length l)%nat then inr (take (choice X (length l) n) l)
  else inl (ValueError
    "Cannot take a larger sample than population when 'replace=False'").

Definition is_label (v : Z) (r : EpochRow) : bool := (e_seizure r =? v)%Z.

(** The number of rows with a given label. *)
Definition count_label (v : Z) (df : EpochTable) : nat :=
  length (filter (is_label v) df).

Definition epochs_seizure_based (X : External) (df : EpochTable)
  : M EpochTable :=
  let df_sz_epochs := filter (is_label 1) df in
  let N := length df_sz_epochs in
  print ("Recording has " +s+ show_nat N +s+ " seizure epochs") ;;
  df_no_sz_epochs <- lift (sample_rows X N (filter (is_label 0) df)) ;;
  print (" " +s+ show_nat N +s+ " random non-seizure epochs selected") ;;
  let df := df_sz_epochs ++ df_no_sz_epochs in
  print "Balanced DataFrame" ;;
  ret df.

(** ** Export: [extract_subject_id], [df_conversion] *)

Fixpoint rfind_from (c : ascii) (s : string) (i : nat) (acc : option nat)
  : option nat :=
  match s with
  | EmptyString => acc
  | String c' s' =>
      rfind_from c s' (S i) (if Ascii.eqb c' c then Some i else acc)
  end.

Definition rfind (c : ascii) (s : string) : option nat :=
  rfind_from c s 0 None.

(** [os.path.splitext] (POSIX separator): split at the last dot of the
    last component, unless that component is dots up to there. *)
Definition splitext (p : string) : string * string :=
  match rfind "." p with
  | None => (p, "")
  | Some dotIndex =>
      let filenameIndex :=
        match rfind "/" p with None => 0 | Some i => S i end in
      if existsb (fun i => match String.get i p with
                           | Some c => negb (Ascii.eqb c ".")
                           | None => false
                           end)
                 (seq filenameIndex (dotIndex - filenameIndex))
      then (String.substring 0 dotIndex p,
            String.substring dotIndex (String.length p - dotIndex) p)
      else (p, "")
  end.

(** [s.split(sep)] for a one-character separator. *)
Fixpoint split_on (sep : ascii) (s : string) : list string :=
  match s with
  | EmptyString => [EmptyString]
  | String c s' =>
      if Ascii.eqb c sep then EmptyString :: split_on sep s'
      else match split_on sep s' with
           | [] => [String c EmptyString]
           | h :: t => String c h :: t
           end
  end.

(** [needle in hay] on strings. *)
Fixpoint contains (needle hay : string) : bool :=
  String.prefix needle hay ||
  match hay with
  | EmptyString => false
  | String _ hay' => contains needle hay'
  end.

(** [os.path.join(a, b)] (POSIX). *)
Definition path_join (a b : string) : string :=
  if String.prefix "/" b then b
  else if (String.eqb a "" || String.eqb (String.substring (String.length a - 1) 1 a) "/")
       then a +s+ b
       else a +s+ "/" +s+ b.

Definition extract_subject_id (output_filename : string) : result string :=
  let parts := split_on "_" (fst (splitext output_filename)) in
  let n := length parts in
  match nth_error parts (n - 2) with
  | None => inl (IndexError "list index out of range")
  | Some before_last =>
      if (n <? 2)%nat then inl (IndexError "list index out of range")
      else if contains "epoched" before_last
           then inr (String.concat "_" (firstn (n - 4) (skipn 2 parts)))
           else inr (String.concat "_" (firstn (n - 3) (skipn 2 parts)))
  end.

(** [df_conversion(df, output_folder, output_filename)]: the writer itself
    is external and taken to succeed. *)
Definition df_conversion (df : EpochTable) (output_folder output_filename : string)
  : M unit :=
  let output_path := path_join output_folder output_filename in
  subject_id <- lift (extract_subject_id output_filename) ;;
  let df := map (pair subject_id) df in
  (([ToFeather output_path df], inr tt) : M unit) ;;
  print "Exported data to FEATHER".

(** ** Execute Data Preparation: [load_raw], [loading], [preprocessing] *)

(** The directories the path cell computes, taken as given. *)
Record Config : Type := mkConfig {
  data_path : string;
  output_path : string
}.

(** [any('AANVAL' in ann['description'] for ann in raw.annotations)]. *)
Definition any_seizure_marker (raw : Raw) : bool :=
  existsb (fun ann => contains "AANVAL" (description ann)) (annotations raw).

(** [raw.load_data()]. *)
Definition load_data (raw : Raw) : result Raw :=
  if fits_in_memory raw then inr (apply_step LoadData raw) else inl MemoryError.

(** [load_raw(file, seizure_files_only, loading)]: [None] is what the
    function returns after its [except] branch has printed. *)
Definition load_raw (X : External) (file : string)
    (seizure_files_only loading : bool) : M (option Raw) :=
  try_except
    (raw <- lift (read_raw_edf X file) ;;
     print "Read" ;;
     (if seizure_files_only && negb (any_seizure_marker raw)
      then raise (Exception "Recording has no seizures... exiting")
      else ret tt) ;;
     raw <- (if loading
             then raw <- lift (load_data raw) ;; print "Loaded" ;; ret raw
             else ret raw) ;;
     ret (Some raw))
    (fun e =>
       print (file +s+ " is not loaded: " +s+ exn_message e) ;;
       ret None).

Definition loading (X : External) (data_path file : string) (loading : bool)
  : M (option Raw) :=
  let file := path_join data_path file in
  load_raw X file true loading.

(** [preprocessing(raw)].  On [None], [preprocess] prints the attribute
    error it catches and [seizure_annotations] raises. *)
Definition preprocessing (X : External) (G : globals) (raw : option Raw)
  : M EpochTable :=
  match raw with
  | None =>
      print "'NoneType' object has no attribute 'set_channel_types'" ;;
      raise (AttributeError "'NoneType' object has no attribute 'annotations'")
  | Some raw =>
      raw <- preprocess G raw ;;
      p <- seizure_annotations raw ;;
      let (raw, annotations) := p : Raw * list Interval in
      epochs <- create_epochs X G raw 10 0 ;;
      df <- labeling epochs annotations ;;
      df <- reshape_df X G df ;;
      df <- epochs_seizure_based X df ;;
      ret df
  end.

(** The last two statements of the driver loop's [try] block: name the
    output file after the input file and export the table. *)
Definition export_epochs (C : Config) (file : string) (df : EpochTable)
  : M unit :=
  let output_filename := fst (splitext file) +s+ "_epoched.feather" in
  df_conversion df (output_path C) output_filename.

(** One iteration of the driver loop. *)
Definition driver_iteration (X : External) (C : Config) (G : globals)
    (index total : nat) (file : string) : M unit :=
  print "-------------------------------------------------" ;;
  print ("Handling " +s+ file +s+ "... EEG " +s+ show_nat index +s+ "/"
         +s+ show_nat total) ;;
  try_except
    (raw <- loading X (data_path C) file true ;;
     df <- preprocessing X G raw ;;
     export_epochs C file df)
    (fun e => print ("Error with " +s+ file +s+ ": " +s+ exn_message e)).


(** ** Large file handling

    The data flow of the large-file cell.  As written the cell stops
    before it handles a file: its [try] block opens with
    [loading(data_path, file, loadig=False)], a [TypeError] (the parameter
    is [loading]); it reads the names [df_sz_annotations] and [seizure],
    which no cell binds; and [df.drop(columns=['condition', inplace=True])]
    does not parse.  What follows embeds the statements that build
    [intervals_df] and the statements from [df = epochs.to_data_frame()] to
    the export, as functions of the values the cell means to have at those
    points: the seizure table [seizures], the recording [raw], the
    per-sample table [df] and the row count [N]. *)

(** A row of [intervals_df]. *)
Record Gap : Type := mkGap {
  start : Q;
  stop : Q;
  label : string
}.

(** [seizures.loc[x, ...]] on the default index. *)
Definition loc (seizures : list Interval) (x : nat) : result Interval :=
  match nth_error seizures x with
  | Some iv => inr iv
  | None => inl (KeyError (show_nat x))
  end.

(** Column [j] of a row of [seizures], by position. *)
Definition column_at (j : nat) (iv : Interval) : result Q :=
  match j with
  | 0 => inr (onset iv)
  | 1 => inr (duration iv)
  | 2 => inr (end_ iv)
  | _ => inl (IndexError "single positional indexer is out-of-bounds")
  end.

(** [seizures.iloc[-1, j]]. *)
Definition iloc_last (seizures : list Interval) (j : nat) : result Q :=
  match rev seizures with
  | [] => inl (IndexError "single positional indexer is out-of-bounds")
  | iv :: _ => column_at j iv
  end.

(** The body of [for x in range(len(seizures))]: the bounds of row [x]. *)
Definition gap_at (seizures : list Interval) (x : nat) : M (Q * Q) :=
  match x with
  | O =>
      iv <- lift (loc seizures x) ;;
      ret (0%Q, onset iv)
  | S x' =>
      previous <- lift (loc seizures x') ;;
      iv <- lift (loc seizures x) ;;
      ret (end_ previous, onset iv)
  end.

(** [last_end = (raw.last_samp / raw.info['sfreq']) - 1]. *)
Definition last_end (raw : Raw) : Q :=
  (inject_Z (last_samp raw) / sfreq raw - 1)%Q.

(** The statements that build [intervals_df]. *)
Definition interictal_intervals (seizures : list Interval) (raw : Raw)
  : M (list Gap) :=
  intervals <- mapM (gap_at seizures) (seq 0 (length seizures)) ;;
  last_start <- lift (iloc_last seizures 1) ;;
  let intervals := intervals ++ [(last_start, last_end raw)] in
  ret (map (fun p => mkGap (fst p) (snd p) "interictal") intervals).

Definition bounds (g : Gap) : Q * Q := (start g, stop g).

(** [df['seizure'] = 0] on the table of the concatenated epochs. *)
Definition label_all_zero (df : Frame Sample) : Frame Labeled :=
  mkFrame (channels df) (map (fun s => mkLabeled s [] 0%Z) (rows df)).

(** From [df = epochs.to_data_frame()] to [df.sample(n=N, ...)]: every
    sample is labelled 0, the table is reshaped and [N] rows are drawn. *)
Definition large_file_table (X : External) (G : globals) (df : Frame Sample)
    (N : nat) : M EpochTable :=
  print "Created DataFrame" ;;
  let df := label_all_zero df in
  df <- reshape_df X G df ;;
  lift (sample_rows X N df).

(** The table and its export. *)
Definition large_file_export (X : External) (C : Config) (G : globals)
    (file : string) (df : Frame Sample) (N : nat) : M unit :=
  df <- large_file_table X G df N ;;
  export_epochs C file df.

(** ** The specification's wording, for comparison *)

(** The gaps that end at a seizure's onset: from [previous_end] to the
    first onset, then from each seizure's end to the next onset. *)
Fixpoint gaps_before (previous_end : Q) (seizures : list Interval)
  : list (Q * Q) :=
  match seizures with
  | [] => []
  | iv :: seizures' =>
      (previous_end, onset iv) :: gaps_before (end_ iv) seizures'
  end.

Definition last_seizure_end (seizures : list Interval) : Q :=
  match rev seizures with
  | [] => 0%Q
  | iv :: _ => end_ iv
  end.

(** The complementary interictal set as the specification words it: the
    gap before the first seizure, the gaps between consecutive seizures and
    the gap from the last seizure's end to the recording's end. *)
Definition complementary_intervals (seizures : list Interval)
    (recording_end : Q) : list (Q * Q) :=
  gaps_before 0%Q seizures ++ [(last_seizure_end seizures, recording_end)].

(** The time of the recording's last sample. *)
Definition recording_end (raw : Raw) : Q :=
  (inject_Z (last_samp raw) / sfreq raw)%Q.

(** Two bounds denote the same interval. *)
Definition same_bounds (a b : Q * Q) : Prop :=
  (fst a == fst b)%Q /\ (snd a == snd b)%Q.

(** [m] is the most recent interval of the sequence with [onset <= t]: it
    starts at or before [t] and every interval after it starts later. *)
Definition most_recent_interval (intervals : list Interval) (t : Q)
    (m : Interval) : Prop :=
  exists before after,
    intervals = before ++ m :: after /\
    (onset m <= t)%Q /\
    Forall (fun iv => ~ (onset iv <= t)%Q) after.

(** [needle] occurs in [hay] and is not all of it. *)
Definition proper_substring (needle hay : string) : Prop :=
  contains needle hay = true /\ hay <> needle.

(** ** Concrete inputs used by the examples *)

(** A reader that returns the given recording for every file, an epoching
    that returns the given per-sample table, arrays stored exactly, and a
    sampler that draws the first [k] positions. *)
Definition external_of (raw : Raw) (df : Frame Sample) : External :=
  mkExternal (fun _ => inr raw) (fun _ _ => inr df) (fun x => x)
             (fun _ k => seq 0 k).

Definition empty_frame : Frame Sample := mkFrame eeg_channels [].

(** A 512 Hz recording. *)
Definition raw_512Hz : Raw :=
  mkRaw eeg_channels 512%Q 1023%Z [] true [].

(** A recording with two seizure events around another event. *)
Definition raw_two_seizures : Raw :=
  mkRaw eeg_channels 256%Q 255999%Z
        [ mkAnnotation 12 10 "AANVAL";
          mkAnnotation 30 2 "EEG start";
          mkAnnotation 100 20 "AANVAL" ]%Q
        true [].

(** A recording whose only events contain the marker without being it. *)
Definition raw_marker_inside : Raw :=
  mkRaw eeg_channels 256%Q 255999%Z
        [ mkAnnotation 12 10 "AANVAL?"; mkAnnotation 40 5 "EINDE AANVAL" ]%Q
        true [].

(** A recording without any annotation. *)
Definition raw_no_annotations : Raw :=
  mkRaw eeg_channels 256%Q 255999%Z [] true [].

(** A recording without the channel Pz, and two of its samples. *)
Definition raw_without_Pz : Raw :=
  mkRaw ["Fz"; "Cz"] 256%Q 2559%Z [] true [].

Definition frame_without_Pz : Frame Sample :=
  mkFrame ["Fz"; "Cz"]
          [ mkSample 0 0 [1.234; 3.456]; mkSample (1 # 256) 0 [2; 4] ]%Q.

(** Four samples at 256 Hz and a seizure from 1/256 s lasting 1/256 s. *)
Definition frame_four_samples : Frame Sample :=
  mkFrame ["Fz"; "Cz"]
          [ mkSample 0 0 [1; 2]; mkSample (1 # 256) 0 [3; 4];
            mkSample (2 # 256) 0 [5; 6]; mkSample (3 # 256) 0 [7; 8] ]%Q.

Definition one_short_seizure : list Interval :=
  [ interval_of (mkAnnotation (1 # 256) (1 # 256) "AANVAL") ].

(** A reshaped table of four epochs, one of them a seizure epoch. *)
Definition table_one_seizure_epoch : EpochTable :=
  [ mkEpochRow 0 [] 0; mkEpochRow 1 [] 1;
    mkEpochRow 2 [] 0; mkEpochRow 3 [] 0 ]%Z.

(** A reshaped table without a seizure epoch. *)
Definition table_no_seizure_epoch : EpochTable :=
  [ mkEpochRow 0 [] 0; mkEpochRow 1 [] 0 ]%Z.

Definition config_example : Config := mkConfig "EDF" "FEATHER".

(** Two epochs of five samples each on the nineteen channels, and a
    recording whose only seizure covers the first two samples. *)
Definition frame_two_epochs : Frame Sample :=
  mkFrame eeg_channels
          (map (fun i => mkSample (Z.of_nat (i mod 5) # 256)
                                  (Z.of_nat (i / 5)) (repeat 1%Q 19))
               (seq 0 10)).

Definition raw_brief_seizure : Raw :=
  mkRaw eeg_channels 256%Q 9%Z [ mkAnnotation 0 (1 # 256) "AANVAL" ]%Q true [].

(** The notebook's namespace with the alias [np] bound as well. *)
Definition globals_with_np : globals := "np" :: notebook_globals.

(** A labelled per-sample table of two epochs: the samples of epoch 0 are
    labelled 1, 0, 0, 1 (a tie that starts with 1), those of epoch 1 are
    labelled 1, 1, 0. *)
Definition labeled_sample (e : Z) (l : Z) : Labeled :=
  mkLabeled (mkSample 0 e (repeat 1%Q 19)) [("duration", None)] l.

Definition frame_tie_then_majority : Frame Labeled :=
  mkFrame eeg_channels
          [ labeled_sample 0 1; labeled_sample 0 0; labeled_sample 0 0;
            labeled_sample 0 1;
            labeled_sample 1 1; labeled_sample 1 1; labeled_sample 1 0 ]%Z.

(** The seizure table of [raw_two_seizures]: onsets 12 and 100, durations
    10 and 20, ends 22 and 120. *)
Definition two_seizure_intervals : list Interval :=
  map interval_of (filter is_seizure (annotations raw_two_seizures)).

(** ** Path setup and the check for missing output files *)

(** [define_paths(project_dir, data_dir)].  [system] is what
    [platform.system()] returns and [join] the platform's [os.path.join].
    On Linux the branch reads [disk_prefix == '/media/mount/'], a
    comparison: [disk_prefix] stays [None] and [os.path.join(None, ...)]
    raises [TypeError]. *)
Definition define_paths (system : string) (join : string -> string -> string)
    (project_dir data_dir : string) : result (string * string) :=
  if negb (String.eqb system "Windows" || String.eqb system "Linux") then
    inl (Exception ("Unsupported plaform: " +s+ system))
  else
    let disk_prefix :=
      if String.eqb system "Windows" then Some "Z:/" else None in
    match disk_prefix with
    | None =>
        inl (TypeError
               "expected str, bytes or os.PathLike object, not NoneType")
    | Some disk_prefix =>
        let project_path := join disk_prefix project_dir in
        let data_path := join project_path data_dir in
        inr (project_path, data_path)
    end.

(** What the path cell binds [output_path] to: a string, or the pair
    [define_paths] returns. *)
Inductive path_value : Type :=
| PathStr (s : string)
| PathPair (project_path data_path : string).

(** The cell [# Define paths and select files], up to the binding of
    [output_path], for a bound [project_dir]:
    [project_path, data_path = define_paths(project_dir, ...)] unpacks
    the pair, [output_path = define_paths(project_dir, ...)] keeps it. *)
Definition path_cell (system : string) (join : string -> string -> string)
    (project_dir : string) : result (string * string * path_value) :=
  match define_paths system join project_dir "_01_Raw_Data/EDF/" with
  | inl e => inl e
  | inr (project_path, data_path) =>
      match define_paths system join project_dir "_04_Epoched_Data/FEATHER/" with
      | inl e => inl e
      | inr (a, b) => inr (project_path, data_path, PathPair a b)
      end
  end.

(** [os.path.join(output_folder, output_filename)] on such a value. *)
Definition join_folder (output_folder : path_value) (output_filename : string)
  : result string :=
  match output_folder with
  | PathStr s => inr (path_join s output_filename)
  | PathPair _ _ =>
      inl (TypeError "expected str, bytes or os.PathLike object, not tuple")
  end.

(** [df_conversion] called with the value the path cell bound. *)
Definition df_conversion_at (df : EpochTable) (output_folder : path_value)
    (output_filename : string) : M unit :=
  output_path <- lift (join_folder output_folder output_filename) ;;
  subject_id <- lift (extract_subject_id output_filename) ;;
  let df := map (pair subject_id) df in
  (([ToFeather output_path df], inr tt) : M unit) ;;
  print "Exported data to FEATHER".

(** [file[:-4]]. *)
Definition drop_last4 (file : string) : string :=
  String.substring 0 (String.length file - 4) file.

(** [missing_files = [file for file in seizure_files
    if file[:-4] + '_epoched.feather' not in files_epoched]]. *)
Definition missing_files (seizure_files files_epoched : list string)
  : list string :=
  filter (fun file =>
            negb (existsb (String.eqb (drop_last4 file +s+ "_epoched.feather"))
                          files_epoched))
         seizure_files.

(** ** Notions used to state properties *)

(** A computation that writes no file. *)
Definition writes_nothing {A} (m : M A) : Prop :=
  feather_files (output m) = [].

(** The character [c] occurs in [s]. *)
Fixpoint has_char (c : ascii) (s : string) : bool :=
  match s with
  | EmptyString => false
  | String c' s' => Ascii.eqb c' c || has_char c s'
  end.

(** Every character of [s] is a dot. *)
Fixpoint only_dots (s : string) : bool :=
  match s with
  | EmptyString => true
  | String c s' => Ascii.eqb c "." && only_dots s'
  end.

(** Every interval ends before the next one starts. *)
Fixpoint separated (intervals : list Interval) : Prop :=
  match intervals with
  | a :: ((b :: _) as rest) => (end_ a < onset b)%Q /\ separated rest
  | _ => True
  end.

(** No interval ends before it starts. *)
Definition well_formed (intervals : list Interval) : Prop :=
  Forall (fun iv => (onset iv <= end_ iv)%Q) intervals.

(** The first name of [eeg_channels] that is not a column. *)
Definition first_missing_channel (columns : list string) : option string :=
  find (fun c => negb (has_column c columns)) eeg_channels.

(** The position of a channel column, 0 when there is none. *)
Definition column_position (df : Frame Labeled) (c : string) : nat :=
  match index_of c (channels df) with
  | Some i => i
  | None => 0
  end.

(** The array of one channel for one epoch, as [reshape_df] builds it. *)
Definition channel_array (X : External) (df : Frame Labeled) (i : nat) (k : Z)
  : list Q :=
  map (fun r => float32 X (nth i (values (lsample r)) 0%Q)) (group df k).

(** More concrete inputs. *)

(** A reshaped table with more seizure epochs than non-seizure epochs. *)
Definition table_mostly_seizure : EpochTable :=
  [ mkEpochRow 0 [] 1; mkEpochRow 1 [] 1; mkEpochRow 2 [] 0 ]%Z.

(** A balanced table of distinct epochs. *)
Definition table_balanced : EpochTable :=
  [ mkEpochRow 0 [] 0; mkEpochRow 1 [] 1; mkEpochRow 2 [] 1; mkEpochRow 3 [] 0 ]%Z.

(** A labelled table without the Pz column. *)
Definition frame_labeled_without_Pz : Frame Labeled :=
  mkFrame (filter (fun c => negb (String.eqb c "Pz")) eeg_channels)
          [ mkLabeled (mkSample 0 0 (repeat 1%Q 18)) [] 0 ].

(** A per-sample table of two epochs without the Pz column, and a
    recording with one seizure from 0 s to 1/256 s. *)
Definition frame_two_epochs_without_Pz : Frame Sample :=
  mkFrame (filter (fun c => negb (String.eqb c "Pz")) eeg_channels)
          (map (fun i => mkSample (Z.of_nat (i mod 5) # 256)
                                  (Z.of_nat (i / 5)) (repeat 1%Q 18))
               (seq 0 10)).

(** Two intervals that do not overlap: one that starts and ends at
    1/256 s, one from 3/256 s to 4/256 s. *)
Definition two_brief_intervals : list Interval :=
  [ interval_of (mkAnnotation (1 # 256) 0 "AANVAL");
    interval_of (mkAnnotation (3 # 256) (1 # 256) "AANVAL") ].

(** A labelled table of three samples in two epochs whose channel values
    all differ: sample [i] holds [100 * i + j] in channel column [j]. *)
Definition frame_distinct_values : Frame Labeled :=
  mkFrame eeg_channels
    (map (fun i =>
            mkLabeled
              (mkSample (Z.of_nat i # 256) (Z.of_nat (i / 2))
                        (map (fun j => inject_Z (Z.of_nat (100 * i + j)))
                             (seq 0 19)))
              [("duration", None)] 0%Z)
         (seq 0 3)).

(** Two overlapping intervals: one from 0 s to 3/256 s and, inside it, one
    that starts and ends at 1/256 s. *)
Definition long_interval : Interval :=
  interval_of (mkAnnotation 0 (3 # 256) "AANVAL").

Definition short_interval_inside : Interval :=
  interval_of (mkAnnotation (1 # 256) 0 "AANVAL").

(** A recording with one seizure from 0 s to 1/256 s and no channel Pz in
    its samples. *)
Definition raw_one_seizure : Raw :=
  mkRaw eeg_channels 256%Q 9%Z [ mkAnnotation 0 (1 # 256) "AANVAL" ]%Q true [].

(** * Verification *)

(** ** The monad *)

Lemma value_bind {A B} (m : M A) (f : A -> M B) :
  value (bind m f) =
  match value m with
  | inl e => inl e
  | inr a => value (f a)
  end.
Proof.
  destruct m as [out [e | a]]; simpl; [reflexivity |].
  destruct (f a); reflexivity.
Qed.

Lemma output_bind {A B} (m : M A) (f : A -> M B) :
  output (bind m f) =
  match value m with
  | inl _ => output m
  | inr a => output m ++ output (f a)
  end.
Proof.
  destruct m as [out [e | a]]; simpl; [reflexivity |].
  destruct (f a); reflexivity.
Qed.

Lemma value_lift {A} (r : result A) : value (lift r) = r.
Proof. reflexivity. Qed.

Lemma value_ret {A} (a : A) : value (ret a) = inr a.
Proof. reflexivity. Qed.

Lemma value_print_then {A} (line : string) (k : M A) :
  value (print line ;; k) = value k.
Proof. rewrite value_bind. reflexivity. Qed.

(** ** Rational keys *)

Lemma Qle_bool_false (x y : Q) : Qle_bool x y = false <-> ~ (x <= y)%Q.
Proof.
  rewrite <- Qle_bool_iff. destruct (Qle_bool x y); split; congruence.
Qed.

Lemma is_monotonic_cons (x : Q) (l : list Q) :
  is_monotonic (x :: l) = true ->
  Forall (fun y => (x <= y)%Q) l /\ is_monotonic l = true.
Proof.
  revert x. induction l as [| y l IH]; intros x H.
  - split; [constructor | reflexivity].
  - simpl in H. apply andb_true_iff in H. destruct H as [Hxy Hl].
    apply Qle_bool_iff in Hxy.
    split; [| exact Hl].
    constructor; [exact Hxy |].
    destruct (IH y Hl) as [Hy _].
    eapply Forall_impl; [| exact Hy].
    intros z Hz. eapply Qle_trans; eassumption.
Qed.

Lemma is_monotonic_intro (x : Q) (l : list Q) :
  Forall (fun y => (x <= y)%Q) l -> is_monotonic l = true ->
  is_monotonic (x :: l) = true.
Proof.
  destruct l as [| y l]; intros Hx Hl; [reflexivity |].
  simpl. apply andb_true_iff. split; [| exact Hl].
  apply Qle_bool_iff. now inversion Hx.
Qed.

Lemma is_monotonic_filter {A} (key : A -> Q) (p : A -> bool) (l : list A) :
  is_monotonic (map key l) = true ->
  is_monotonic (map key (filter p l)) = true.
Proof.
  induction l as [| a l IH]; intros H; [reflexivity |].
  change (map key (a :: l)) with (key a :: map key l) in H.
  apply is_monotonic_cons in H. destruct H as [Ha Hl].
  simpl. destruct (p a); [| now apply IH].
  change (is_monotonic (key a :: map key (filter p l)) = true).
  apply is_monotonic_intro; [| now apply IH].
  rewrite Forall_forall in *. intros y Hy.
  apply in_map_iff in Hy. destruct Hy as [b [<- Hb]].
  apply filter_In in Hb. apply Ha. apply in_map. tauto.
Qed.

(** ** Seizure Interval Extractor *)

(** C6.  [seizure_annotations] keeps exactly the events whose description
    equals ["AANVAL"], in the recording's order, as intervals with
    [end = onset + duration]; the recording's annotations are replaced by
    the kept events; onsets in ascending order stay in ascending order;
    no matching event gives the empty sequence. *)
Theorem seizure_annotations_selects_marker_events (raw : Raw) :
  exists raw' intervals,
    value (seizure_annotations raw) = inr (raw', intervals) /\
    intervals =
      map interval_of
          (filter (fun a => String.eqb (description a) "AANVAL")
                  (annotations raw)) /\
    (forall iv, In iv intervals <->
       exists a, In a (annotations raw) /\ description a = "AANVAL" /\
                 iv = mkInterval (a_onset a) (a_duration a)
                                 (a_onset a + a_duration a)%Q) /\
    Forall (fun iv => end_ iv = (onset iv + duration iv)%Q) intervals /\
    (is_monotonic (map a_onset (annotations raw)) = true ->
     is_monotonic (map onset intervals) = true) /\
    ((forall a, In a (annotations raw) -> description a <> "AANVAL") ->
     intervals = []) /\
    annotations raw' = filter is_seizure (annotations raw).
Proof.
  eexists. eexists. split; [reflexivity |].
  split; [reflexivity |].
  split; [| split; [| split; [| split]]].
  - intros iv. rewrite in_map_iff. split.
    + intros [a [<- Ha]]. apply filter_In in Ha. destruct Ha as [Ha Hd].
      apply String.eqb_eq in Hd. exists a. repeat split; assumption.
    + intros [a [Ha [Hd ->]]]. exists a. split; [reflexivity |].
      apply filter_In. split; [exact Ha |]. now apply String.eqb_eq.
  - apply Forall_forall. intros iv Hiv.
    apply in_map_iff in Hiv. destruct Hiv as [a [<- _]]. reflexivity.
  - intros Hsorted. rewrite map_map.
    change (fun x => onset (interval_of x)) with a_onset.
    now apply is_monotonic_filter.
  - intros Hnone.
    induction (annotations raw) as [| a l IH]; [reflexivity |].
    simpl. unfold is_seizure at 1.
    destruct (String.eqb_spec (description a) "AANVAL") as [Heq | Hne].
    + exfalso. apply (Hnone a); [now left | exact Heq].
    + apply IH. intros b Hb. apply Hnone. now right.
  - reflexivity.
Qed.

(** ** Selection against extraction *)

Lemma filter_is_seizure_nil (anns : list Annotation) :
  Forall (fun a => description a <> "AANVAL") anns ->
  filter is_seizure anns = [].
Proof.
  induction 1 as [| a l Ha _ IH]; [reflexivity |].
  simpl. unfold is_seizure at 1.
  destruct (String.eqb_spec (description a) "AANVAL"); [contradiction | exact IH].
Qed.

(** C10, as amended.  For a recording with at least one annotation whose
    annotation descriptions all contain ["AANVAL"] as a proper substring,
    [load_raw] with [seizure_files_only=True] does not raise its "no
    seizures" exception and returns the recording (loaded, when loading is
    asked for and fits in memory), and [seizure_annotations] returns the
    empty interval sequence for it. *)
Theorem marker_inside_accepted_but_not_extracted
    (X : External) (file : string) (raw : Raw) :
  read_raw_edf X file = inr raw ->
  annotations raw <> [] ->
  Forall (fun a => proper_substring "AANVAL" (description a))
         (annotations raw) ->
  any_seizure_marker raw = true /\
  load_raw X file true false = ([Printed "Read"], inr (Some raw)) /\
  (fits_in_memory raw = true ->
   load_raw X file true true =
     ([Printed "Read"; Printed "Loaded"], inr (Some (apply_step LoadData raw)))) /\
  value (seizure_annotations raw) = inr (set_annotations [] raw, []).
Proof.
  intros Hread Hne Hall.
  assert (Hany : any_seizure_marker raw = true).
  { unfold any_seizure_marker.
    destruct (annotations raw) as [| a l]; [congruence |].
    inversion Hall as [| ? ? [Ha _] _]; subst.
    simpl. now rewrite Ha. }
  assert (Hnil : filter is_seizure (annotations raw) = []).
  { apply filter_is_seizure_nil.
    eapply Forall_impl; [| exact Hall]. intros a [_ Ha]. exact Ha. }
  split; [exact Hany |].
  split; [| split].
  - unfold load_raw. rewrite Hread. cbn -[any_seizure_marker].
    rewrite Hany. reflexivity.
  - intros Hfits. unfold load_raw, load_data. rewrite Hread.
    cbn -[any_seizure_marker]. rewrite Hany, Hfits. reflexivity.
  - unfold seizure_annotations. rewrite Hnil. reflexivity.
Qed.

Lemma marker_inside_accepted_but_not_extracted_witness :
  any_seizure_marker raw_marker_inside = true /\
  load_raw (external_of raw_marker_inside empty_frame) "a.edf" true false
    = ([Printed "Read"], inr (Some raw_marker_inside)) /\
  (fits_in_memory raw_marker_inside = true ->
   load_raw (external_of raw_marker_inside empty_frame) "a.edf" true true =
     ([Printed "Read"; Printed "Loaded"],
      inr (Some (apply_step LoadData raw_marker_inside)))) /\
  value (seizure_annotations raw_marker_inside)
    = inr (set_annotations [] raw_marker_inside, []).
Proof.
  apply (marker_inside_accepted_but_not_extracted
           (external_of raw_marker_inside empty_frame) "a.edf"
           raw_marker_inside).
  - reflexivity.
  - discriminate.
  - repeat constructor; discriminate.
Defined.

(** C10, as stated, fails on a recording without annotations: each of its
    (zero) descriptions contains the marker properly, and the selection
    raises "no seizures", so [load_raw] prints and returns [None]. *)
Lemma load_raw_rejects_recording_without_annotations :
  Forall (fun a => proper_substring "AANVAL" (description a))
         (annotations raw_no_annotations) /\
  any_seizure_marker raw_no_annotations = false /\
  load_raw (external_of raw_no_annotations empty_frame) "a.edf" true false
    = ([Printed "Read";
        Printed "a.edf is not loaded: Recording has no seizures... exiting"],
       inr None).
Proof.
  split; [constructor |]. split; reflexivity.
Qed.

(** ** Normalizer *)

(** C9.  Under the notebook's own namespace [preprocess] never resamples:
    [np] is not bound, the notch step raises [NameError], the handler
    prints it, and the recording comes back at its source rate with only
    the channel types and the montage set. *)
Theorem preprocess_notebook_never_resamples (raw : Raw) :
  exists raw',
    preprocess notebook_globals raw
      = ([Printed "name 'np' is not defined"], inr raw') /\
    sfreq raw' = sfreq raw /\
    history raw' =
      history raw ++ [SetChannelTypes; SetMontage "standard_1020"] /\
    (forall to, In (Resample to) (history raw') ->
                In (Resample to) (history raw)).
Proof.
  eexists. split; [reflexivity |].
  split; [reflexivity |].
  split.
  - simpl. now rewrite <- app_assoc.
  - intros to H. simpl in H.
    apply in_app_or in H. destruct H as [H | [H | []]]; [| discriminate].
    apply in_app_or in H. destruct H as [H | [H | []]]; [exact H | discriminate].
Qed.

(** The failing input of C9: a 512 Hz recording is returned at 512 Hz. *)
Example preprocess_512Hz_stays_512Hz :
  exists raw',
    value (preprocess notebook_globals raw_512Hz) = inr raw' /\
    sfreq raw' = 512%Q /\
    ~ In (Resample 256) (history raw').
Proof.
  eexists. split; [reflexivity |]. split; [reflexivity |].
  simpl. intros [H | [H | []]]; discriminate.
Qed.

(** ** Epoching Engine *)

(** C7.  Whatever the namespace, [create_epochs] returns the per-sample
    table with [count] added and nothing else done to it: the test on
    [df.epochs.columns] raises before the Pz branch and before the
    rounding.  A table without a Pz column comes back without one. *)
Theorem create_epochs_never_fills_Pz
    (X : External) (G : globals) (raw : Raw) (duration overlap : Q) :
  match epochs_to_data_frame X raw duration with
  | inr df0 =>
      value (create_epochs X G raw duration overlap) = inr (add_count df0) /\
      channels (add_count df0) = channels df0 /\
      map (fun r => values (sample r)) (rows (add_count df0))
        = map values (rows df0)
  | inl _ =>
      value (create_epochs X G raw duration overlap)
        = inl (UnboundLocalError "df_epochs")
  end.
Proof.
  unfold create_epochs.
  destruct (epochs_to_data_frame X raw duration) as [e | df0]; [reflexivity |].
  split; [| split].
  - unfold eval_df_epochs_columns.
    destruct (lookup_global G "df"); reflexivity.
  - reflexivity.
  - unfold add_count. simpl. rewrite map_map. simpl.
    generalize 0 as i. induction (rows df0) as [| s l IH]; intros i.
    + reflexivity.
    + simpl. f_equal. apply IH.
Qed.

(** The failing input of C7: a recording without Pz. *)
Example create_epochs_without_Pz :
  exists df,
    value (create_epochs (external_of raw_without_Pz frame_without_Pz)
                         notebook_globals raw_without_Pz 10 0) = inr df /\
    has_column "Pz" (channels df) = false /\
    map (fun r => values (sample r)) (rows df)
      = [[1.234; 3.456]; [2; 4]]%Q.
Proof. eexists. repeat split. Qed.

(** ** Labeling *)

Lemma asof_backward_stops (t : Q) (right : list Interval) (best : option Interval) :
  Forall (fun iv => ~ (onset iv <= t)%Q) right ->
  asof_backward t right best = best.
Proof.
  intros H. destruct right as [| iv right]; [reflexivity |].
  simpl. inversion H as [| ? ? Hiv _]; subst.
  apply Qle_bool_false in Hiv. now rewrite Hiv.
Qed.

Lemma asof_backward_sound (t : Q) (right : list Interval) :
  is_monotonic (map onset right) = true ->
  forall best m,
    asof_backward t right best = Some m ->
    most_recent_interval right t m \/
    (best = Some m /\ Forall (fun iv => ~ (onset iv <= t)%Q) right).
Proof.
  induction right as [| iv right IH]; intros Hsorted best m Hm.
  - right. split; [exact Hm | constructor].
  - change (map onset (iv :: right)) with (onset iv :: map onset right) in Hsorted.
    apply is_monotonic_cons in Hsorted. destruct Hsorted as [Hiv Hright].
    simpl in Hm. destruct (Qle_bool (onset iv) t) eqn:Htest.
    + left. apply Qle_bool_iff in Htest.
      destruct (IH Hright _ _ Hm) as [[before [after [-> [Hle Hafter]]]] | [Heq Hlater]].
      * exists (iv :: before), after. repeat split; assumption.
      * injection Heq as ->. exists [], right. repeat split; assumption.
    + right. split; [exact Hm |].
      apply Qle_bool_false in Htest.
      constructor; [exact Htest |].
      rewrite Forall_forall in *. intros iv' Hin Hle.
      apply Htest. eapply Qle_trans; [| exact Hle].
      apply Hiv. now apply in_map.
Qed.

Lemma asof_backward_complete (t : Q) (right : list Interval) (m : Interval) :
  is_monotonic (map onset right) = true ->
  most_recent_interval right t m ->
  forall best, asof_backward t right best = Some m.
Proof.
  intros Hsorted [before [after [-> [Hle Hafter]]]].
  induction before as [| iv before IH]; intros best.
  - simpl. apply Qle_bool_iff in Hle. rewrite Hle.
    now apply asof_backward_stops.
  - change (map onset ((iv :: before) ++ m :: after))
      with (onset iv :: map onset (before ++ m :: after)) in Hsorted.
    apply is_monotonic_cons in Hsorted. destruct Hsorted as [Hiv Hrest].
    assert (Htest : Qle_bool (onset iv) t = true).
    { apply Qle_bool_iff. eapply Qle_trans; [| exact Hle].
      rewrite Forall_forall in Hiv. apply Hiv. apply in_map.
      apply in_or_app. right. now left. }
    simpl. rewrite Htest. now apply IH.
Qed.

(** The [count] column that [create_epochs] adds is sorted. *)
Lemma add_count_monotonic (df0 : Frame Sample) :
  is_monotonic (map count (rows (add_count df0))) = true.
Proof.
  unfold add_count. cbn [rows]. rewrite map_map. cbn [count].
  generalize 0 as i. induction (rows df0) as [| s l IH]; intros i.
  - reflexivity.
  - cbn [length seq combine map fst].
    specialize (IH (S i)).
    destruct l as [| s' l']; [reflexivity |].
    cbn [length seq combine map fst] in *.
    change (Qle_bool (Qmake (Z.of_nat i) 256) (Qmake (Z.of_nat (S i)) 256)
            && is_monotonic
                 (Qmake (Z.of_nat (S i)) 256
                  :: map (fun x : nat * Sample => Qmake (Z.of_nat (fst x)) 256)
                         (combine (seq (S (S i)) (length l')) l')) = true).
    rewrite IH, andb_true_r.
    unfold Qle_bool. cbn [Qnum Qden]. apply Z.leb_le. lia.
Qed.

(** C5.  On sorted keys and at least one interval, [labeling] returns a
    table with one row per sample, in order; each row keeps its sample and
    has label 0 or 1, and the label is 1 exactly when the sample's time
    [count] lies in [[onset, end]], both bounds included, of the most
    recent interval whose onset is at or before it. *)
Theorem labeling_marks_samples_inside_matched_interval
    (df_epochs : Frame Timed) (intervals : list Interval) :
  intervals <> [] ->
  is_monotonic (map count (rows df_epochs)) = true ->
  is_monotonic (map onset intervals) = true ->
  exists df,
    value (labeling df_epochs intervals) = inr df /\
    channels df = channels df_epochs /\
    Forall2
      (fun (r : Timed) (r' : Labeled) =>
         lsample r' = sample r /\
         (seizure r' = 0%Z \/ seizure r' = 1%Z) /\
         (seizure r' = 1%Z <->
          exists m, most_recent_interval intervals (count r) m /\
                    (onset m <= count r)%Q /\ (count r <= end_ m)%Q))
      (rows df_epochs) (rows df).
Proof.
  intros Hne Hleft Hright.
  unfold labeling, merge_asof.
  destruct intervals as [| iv0 ivs] eqn:Hivs; [congruence |].
  rewrite <- Hivs in *. clear Hne.
  rewrite Hleft, Hright. cbn [negb lift bind print ret value snd app].
  eexists. split; [reflexivity |]. split; [reflexivity |].
  cbn [rows]. rewrite map_map.
  clear Hleft. induction (rows df_epochs) as [| r l IH]; [constructor |].
  cbn [map]. constructor; [| exact IH].
  cbn [lsample seizure]. split; [reflexivity |].
  destruct (asof_backward (count r) intervals None) as [m |] eqn:Hasof.
  - destruct (asof_backward_sound _ _ Hright _ _ Hasof) as [Hm | [Hnone _]];
      [| discriminate].
    cbn [in_seizure].
    destruct (Qle_bool (onset m) (count r) && Qle_bool (count r) (end_ m))
      eqn:Hin.
    + split; [now right |]. split; [| reflexivity].
      intros _. exists m. apply andb_true_iff in Hin. destruct Hin as [H1 H2].
      apply Qle_bool_iff in H1. apply Qle_bool_iff in H2. now repeat split.
    + split; [now left |]. split; [discriminate |].
      intros [m' [Hm' [H1 H2]]]. exfalso.
      pose proof (asof_backward_complete _ _ _ Hright Hm' None) as Heq.
      rewrite Hasof in Heq. injection Heq as ->.
      apply Qle_bool_iff in H1. apply Qle_bool_iff in H2.
      rewrite H1, H2 in Hin. discriminate.
  - cbn [in_seizure]. split; [now left |]. split; [discriminate |].
    intros [m [Hm _]]. exfalso.
    pose proof (asof_backward_complete _ _ _ Hright Hm None) as Heq.
    congruence.
Qed.

Lemma labeling_marks_samples_inside_matched_interval_witness :
  exists df,
    value (labeling (add_count frame_four_samples) one_short_seizure) = inr df /\
    channels df = channels (add_count frame_four_samples) /\
    Forall2
      (fun (r : Timed) (r' : Labeled) =>
         lsample r' = sample r /\
         (seizure r' = 0%Z \/ seizure r' = 1%Z) /\
         (seizure r' = 1%Z <->
          exists m, most_recent_interval one_short_seizure (count r) m /\
                    (onset m <= count r)%Q /\ (count r <= end_ m)%Q))
      (rows (add_count frame_four_samples)) (rows df).
Proof.
  apply (labeling_marks_samples_inside_matched_interval
           (add_count frame_four_samples) one_short_seizure).
  - discriminate.
  - reflexivity.
  - reflexivity.
Defined.

(** The labels of the four samples: before, at the onset, at the end (both
    bounds count), after. *)
Example labeling_four_samples :
  exists df,
    value (labeling (add_count frame_four_samples) one_short_seizure) = inr df /\
    map seizure (rows df) = [0; 1; 1; 0]%Z.
Proof. eexists. split; reflexivity. Qed.

(** ** Class Balancer *)

Lemma take_length {A} (positions : list nat) (l : list A) :
  Forall (fun i => i < length l) positions ->
  length (take positions l) = length positions.
Proof.
  induction 1 as [| i positions Hi _ IH]; [reflexivity |].
  unfold take in *. simpl.
  destruct (nth_error l i) eqn:Hnth.
  - simpl. now rewrite IH.
  - apply nth_error_None in Hnth. lia.
Qed.

Lemma take_incl {A} (positions : list nat) (l : list A) :
  incl (take positions l) l.
Proof.
  intros x Hx. unfold take in Hx. apply in_flat_map in Hx.
  destruct Hx as [i [_ Hx]].
  destruct (nth_error l i) eqn:Hnth; [| contradiction].
  destruct Hx as [<- | []]. eapply nth_error_In. eassumption.
Qed.

Lemma filter_is_label_other (v w : Z) (df : EpochTable) :
  Forall (fun r => e_seizure r = w) df -> v <> w ->
  filter (is_label v) df = [].
Proof.
  induction 1 as [| r df Hr _ IH]; intros Hvw; [reflexivity |].
  simpl. unfold is_label at 1. rewrite Hr.
  destruct (Z.eqb_spec w v); [congruence | now apply IH].
Qed.

Lemma filter_is_label_same (v : Z) (df : EpochTable) :
  Forall (fun r => e_seizure r = v) df -> filter (is_label v) df = df.
Proof.
  induction 1 as [| r df Hr _ IH]; [reflexivity |].
  simpl. unfold is_label at 1. rewrite Hr, Z.eqb_refl. now rewrite IH.
Qed.

Lemma filter_is_label_all (v : Z) (df : EpochTable) :
  Forall (fun r => e_seizure r = v) (filter (is_label v) df).
Proof.
  apply Forall_forall. intros r Hr. apply filter_In in Hr.
  destruct Hr as [_ Hr]. now apply Z.eqb_eq in Hr.
Qed.

Lemma count_label_app (v : Z) (a b : EpochTable) :
  count_label v (a ++ b) = count_label v a + count_label v b.
Proof. unfold count_label. now rewrite filter_app, length_app. Qed.

(** The balancer's results rest on one assumption about the sampler: it
    draws without replacement. *)
Section Balancer.

Variable X : External.
Hypothesis sampling_without_replacement : choice_ok (choice X).

Lemma sample_rows_spec {A} (n : nat) (l : list A) :
  n <= length l ->
  exists positions,
    sample_rows X n l = inr (take positions l) /\
    NoDup positions /\ Forall (fun i => i < length l) positions /\
    length positions = n /\ length (take positions l) = n.
Proof.
  intros Hn. unfold sample_rows.
  destruct (Nat.leb_spec n (length l)) as [_ | Hlt]; [| lia].
  destruct (sampling_without_replacement (length l) n Hn)
    as [Hlen [Hnodup Hbound]].
  exists (choice X (length l) n). repeat split; try assumption.
  now rewrite take_length.
Qed.

(** What the balancer returns when the label-0 rows suffice. *)
Lemma epochs_seizure_based_value (df : EpochTable) :
  count_label 1 df <= count_label 0 df ->
  exists positions,
    value (epochs_seizure_based X df)
      = inr (filter (is_label 1) df ++ take positions (filter (is_label 0) df)) /\
    NoDup positions /\
    length (take positions (filter (is_label 0) df)) = count_label 1 df.
Proof.
  intros Henough.
  destruct (sample_rows_spec (count_label 1 df) (filter (is_label 0) df)
              Henough)
    as [positions [Hsample [Hnodup [_ [_ Hlen]]]]].
  exists positions. split; [| split; assumption].
  unfold epochs_seizure_based.
  rewrite value_print_then, value_bind, value_lift.
  fold (count_label 1 df). rewrite Hsample.
  rewrite value_print_then, value_print_then. reflexivity.
Qed.

(** C1.  When the table has at least as many label-0 rows as label-1 rows,
    [epochs_seizure_based] returns all [N] label-1 rows, in table order,
    followed by [N] label-0 rows drawn from distinct positions of the
    label-0 rows: exactly [N] rows of each label. *)
Theorem epochs_seizure_based_balances (df : EpochTable) :
  count_label 1 df <= count_label 0 df ->
  exists sampled positions,
    value (epochs_seizure_based X df) = inr (filter (is_label 1) df ++ sampled) /\
    Forall (fun r => e_seizure r = 1%Z) (filter (is_label 1) df) /\
    length (filter (is_label 1) df) = count_label 1 df /\
    sampled = take positions (filter (is_label 0) df) /\
    NoDup positions /\
    length sampled = count_label 1 df /\
    Forall (fun r => e_seizure r = 0%Z) sampled /\
    incl sampled df /\
    count_label 1 (filter (is_label 1) df ++ sampled) = count_label 1 df /\
    count_label 0 (filter (is_label 1) df ++ sampled) = count_label 1 df.
Proof.
  intros Henough.
  destruct (epochs_seizure_based_value df Henough)
    as [positions [Hvalue [Hnodup Hlen]]].
  assert (Hzero : Forall (fun r => e_seizure r = 0%Z)
                         (take positions (filter (is_label 0) df))).
  { apply Forall_forall. intros r Hr. apply take_incl in Hr.
    revert r Hr. apply Forall_forall. apply filter_is_label_all. }
  exists (take positions (filter (is_label 0) df)), positions.
  split; [exact Hvalue |].
  split; [apply filter_is_label_all |].
  split; [reflexivity |].
  split; [reflexivity |].
  split; [exact Hnodup |].
  split; [exact Hlen |].
  split; [exact Hzero |].
  split.
  { intros r Hr. apply take_incl in Hr. apply filter_In in Hr. tauto. }
  rewrite !count_label_app. split.
  - unfold count_label at 2.
    rewrite (filter_is_label_other 1 0 _ Hzero) by discriminate.
    unfold count_label at 1.
    rewrite (filter_is_label_same 1 _ (filter_is_label_all 1 df)).
    simpl. unfold count_label. lia.
  - unfold count_label at 1.
    rewrite (filter_is_label_other 0 1 _ (filter_is_label_all 1 df))
      by discriminate.
    unfold count_label at 1.
    rewrite (filter_is_label_same 0 _ Hzero). simpl. exact Hlen.
Qed.

End Balancer.

Lemma first_positions_ok : choice_ok (fun _ k => seq 0 k).
Proof.
  intros n k Hk. split; [apply length_seq |]. split; [apply seq_NoDup |].
  apply Forall_forall. intros i Hi. apply in_seq in Hi. lia.
Qed.

Lemma epochs_seizure_based_balances_witness :
  exists sampled positions,
    value (epochs_seizure_based (external_of raw_two_seizures empty_frame)
                                table_one_seizure_epoch)
      = inr (filter (is_label 1) table_one_seizure_epoch ++ sampled) /\
    Forall (fun r => e_seizure r = 1%Z)
           (filter (is_label 1) table_one_seizure_epoch) /\
    length (filter (is_label 1) table_one_seizure_epoch)
      = count_label 1 table_one_seizure_epoch /\
    sampled = take positions (filter (is_label 0) table_one_seizure_epoch) /\
    NoDup positions /\
    length sampled = count_label 1 table_one_seizure_epoch /\
    Forall (fun r => e_seizure r = 0%Z) sampled /\
    incl sampled table_one_seizure_epoch /\
    count_label 1 (filter (is_label 1) table_one_seizure_epoch ++ sampled)
      = count_label 1 table_one_seizure_epoch /\
    count_label 0 (filter (is_label 1) table_one_seizure_epoch ++ sampled)
      = count_label 1 table_one_seizure_epoch.
Proof.
  apply (epochs_seizure_based_balances
           (external_of raw_two_seizures empty_frame) first_positions_ok
           table_one_seizure_epoch).
  vm_compute. lia.
Defined.

(** The balanced table of the example: the seizure epoch, then one
    non-seizure epoch. *)
Example epochs_seizure_based_one_seizure_epoch :
  value (epochs_seizure_based (external_of raw_two_seizures empty_frame)
                              table_one_seizure_epoch)
  = inr [ mkEpochRow 1 [] 1; mkEpochRow 0 [] 0 ]%Z.
Proof. reflexivity. Qed.

(** ** Export *)

Lemma rfind_from_app (c : ascii) (s1 s2 : string) :
  forall i acc,
    rfind_from c (s1 +s+ s2) i acc
    = rfind_from c s2 (i + String.length s1) (rfind_from c s1 i acc).
Proof.
  induction s1 as [| c1 s1 IH]; intros i acc; simpl.
  - now rewrite Nat.add_0_r.
  - rewrite IH. f_equal. lia.
Qed.

Lemma rfind_from_bound (c : ascii) (s : string) :
  forall i acc j,
    rfind_from c s i acc = Some j ->
    acc = Some j \/ (i <= j < i + String.length s).
Proof.
  induction s as [| c' s IH]; intros i acc j H; simpl in H.
  - now left.
  - apply IH in H. destruct H as [H | H]; [| right; simpl; lia].
    destruct (Ascii.eqb c' c); [| now left].
    injection H as <-. right. simpl. lia.
Qed.

Lemma get_app_at_length (s1 : string) (c : ascii) (s2 : string) :
  String.get (String.length s1) (s1 +s+ String c s2) = Some c.
Proof. induction s1 as [| c1 s1 IH]; simpl; [reflexivity | exact IH]. Qed.

Lemma substring_app_left (s1 s2 : string) (n : nat) :
  String.substring 0 (String.length s1 + n) (s1 +s+ s2)
  = s1 +s+ String.substring 0 n s2.
Proof. induction s1 as [| c1 s1 IH]; simpl; [reflexivity | now rewrite IH]. Qed.

(** The stem of ["<stem>_epoched.feather"] is ["<stem>_epoched"]. *)
Lemma splitext_epoched (stem : string) :
  fst (splitext (stem +s+ "_epoched.feather")) = stem +s+ "_epoched".
Proof.
  unfold splitext, rfind.
  rewrite !rfind_from_app. cbn [rfind_from Ascii.eqb Bool.eqb String.length].
  simpl Nat.add.
  set (slash := rfind_from "/" stem 0 None).
  set (dot := S (S (S (S (S (S (S (S (String.length stem))))))))).
  set (from := match slash with Some i => S i | None => 0 end).
  assert (Hfrom : from <= String.length stem).
  { subst from. destruct slash as [i |] eqn:Hslash; [| lia].
    apply rfind_from_bound in Hslash. destruct Hslash; [discriminate | lia]. }
  assert (Hex : existsb
                  (fun i => match String.get i (stem +s+ "_epoched.feather") with
                            | Some c => negb (Ascii.eqb c ".")
                            | None => false
                            end)
                  (seq from (dot - from)) = true).
  { apply existsb_exists. exists (String.length stem). split.
    - apply in_seq. subst dot. lia.
    - now rewrite get_app_at_length. }
  rewrite Hex. cbn [fst]. subst dot.
  replace (S (S (S (S (S (S (S (S (String.length stem)))))))))
    with (String.length stem + 8) by lia.
  now rewrite substring_app_left.
Qed.

Lemma split_on_nonempty (sep : ascii) (s : string) :
  1 <= length (split_on sep s).
Proof.
  induction s as [| c s IH]; simpl; [lia |].
  destruct (Ascii.eqb c sep); simpl; [lia |].
  destruct (split_on sep s); simpl in *; lia.
Qed.

Lemma split_on_separator (sep : ascii) (s1 s2 : string) :
  2 <= length (split_on sep (s1 +s+ String sep s2)).
Proof.
  induction s1 as [| c s1 IH]; simpl.
  - rewrite Ascii.eqb_refl. simpl. pose proof (split_on_nonempty sep s2). lia.
  - destruct (Ascii.eqb c sep); simpl; [lia |].
    destruct (split_on sep (s1 +s+ String sep s2)); simpl in *; lia.
Qed.

(** Every name the export step builds yields a subject identifier. *)
Lemma extract_subject_id_epoched (stem : string) :
  exists subject,
    extract_subject_id (stem +s+ "_epoched.feather") = inr subject.
Proof.
  unfold extract_subject_id. rewrite splitext_epoched.
  pose proof (split_on_separator "_" stem "epoched") as Hlen.
  change (stem +s+ "_epoched") with (stem +s+ String "_" "epoched").
  set (parts := split_on "_" (stem +s+ String "_" "epoched")) in *.
  destruct (nth_error parts (length parts - 2)) as [p |] eqn:Hnth.
  - destruct (Nat.ltb_spec (length parts) 2) as [Hlt | _]; [lia |].
    destruct (contains "epoched" p); eexists; reflexivity.
  - apply nth_error_None in Hnth. lia.
Qed.

(** [export_epochs] writes one file, whatever the table holds. *)
Lemma export_epochs_writes (C : Config) (file : string) (df : EpochTable) :
  exists subject,
    extract_subject_id (fst (splitext file) +s+ "_epoched.feather") = inr subject /\
    export_epochs C file df
    = ([ToFeather (path_join (output_path C)
                             (fst (splitext file) +s+ "_epoched.feather"))
                  (map (pair subject) df);
        Printed "Exported data to FEATHER"],
       inr tt).
Proof.
  destruct (extract_subject_id_epoched (fst (splitext file))) as [subject Hs].
  exists subject. split; [exact Hs |].
  unfold export_epochs, df_conversion. rewrite Hs. reflexivity.
Qed.

Lemma length_zero_nil {A} (l : list A) : length l = 0 -> l = [].
Proof. destruct l; [reflexivity | discriminate]. Qed.

(** C3, as amended.  For a reshaped table without label-1 rows
    [epochs_seizure_based] raises nothing and returns the empty table, and
    the export step of the driver loop, which has no test on the number of
    rows, writes the recording's output file with zero rows. *)
Theorem zero_seizure_epochs_exported_as_empty_table
    (X : External) (C : Config) (file : string) (df : EpochTable) :
  choice_ok (choice X) ->
  count_label 1 df = 0 ->
  value (epochs_seizure_based X df) = inr [] /\
  export_epochs C file []
  = ([ToFeather (path_join (output_path C)
                           (fst (splitext file) +s+ "_epoched.feather")) [];
      Printed "Exported data to FEATHER"],
     inr tt) /\
  feather_files (output (df' <- epochs_seizure_based X df ;;
                         export_epochs C file df'))
  = [(path_join (output_path C) (fst (splitext file) +s+ "_epoched.feather"),
      [])].
Proof.
  intros Hchoice Hzero.
  destruct (epochs_seizure_based_value X Hchoice df ltac:(lia))
    as [positions [Hvalue [_ Hlen]]].
  rewrite Hzero in Hlen. apply length_zero_nil in Hlen.
  rewrite Hlen in Hvalue.
  unfold count_label in Hzero. apply length_zero_nil in Hzero.
  rewrite Hzero in Hvalue. simpl in Hvalue.
  destruct (export_epochs_writes C file []) as [subject [_ Hexport]].
  simpl in Hexport.
  split; [exact Hvalue |]. split; [exact Hexport |].
  rewrite output_bind, Hvalue, Hexport.
  destruct (epochs_seizure_based X df) as [out r] eqn:Hrun.
  unfold epochs_seizure_based in Hrun.
  destruct (sample_rows X (length (filter (is_label 1) df))
                        (filter (is_label 0) df)) as [e | rows0];
    cbn in Hrun; injection Hrun as <- <-; reflexivity.
Qed.

Lemma zero_seizure_epochs_exported_as_empty_table_witness :
  value (epochs_seizure_based (external_of raw_brief_seizure frame_two_epochs)
                              table_no_seizure_epoch) = inr [] /\
  export_epochs config_example "EXP_EMC_M15_0000615#01.edf" []
  = ([ToFeather (path_join (output_path config_example)
                   (fst (splitext "EXP_EMC_M15_0000615#01.edf")
                    +s+ "_epoched.feather")) [];
      Printed "Exported data to FEATHER"],
     inr tt) /\
  feather_files
    (output (df' <- epochs_seizure_based
                      (external_of raw_brief_seizure frame_two_epochs)
                      table_no_seizure_epoch ;;
             export_epochs config_example "EXP_EMC_M15_0000615#01.edf" df'))
  = [(path_join (output_path config_example)
                (fst (splitext "EXP_EMC_M15_0000615#01.edf")
                 +s+ "_epoched.feather"),
      [])].
Proof.
  apply (zero_seizure_epochs_exported_as_empty_table
           (external_of raw_brief_seizure frame_two_epochs) config_example
           "EXP_EMC_M15_0000615#01.edf" table_no_seizure_epoch).
  - exact first_positions_ok.
  - reflexivity.
Defined.

(** C3, as stated, fails: a reshaped table of two label-0 epochs has no
    label-1 row, yet the balancer returns normally and the export step
    writes the recording's file (with no rows). *)
Lemma zero_seizure_epochs_not_excluded :
  count_label 1 table_no_seizure_epoch = 0 /\
  value (epochs_seizure_based (external_of raw_brief_seizure frame_two_epochs)
                              table_no_seizure_epoch) = inr [] /\
  feather_files
    (output (export_epochs config_example "EXP_EMC_M15_0000615#01.edf" []))
  = [("FEATHER/EXP_EMC_M15_0000615#01_epoched.feather", [])].
Proof. repeat split. Qed.

(** The driver loop reaches the export with whatever [preprocessing]
    returned. *)
Lemma driver_iteration_exports
    (X : External) (C : Config) (G : globals) (index total : nat)
    (file : string) (raw : option Raw) (df : EpochTable) :
  value (loading X (data_path C) file true) = inr raw ->
  value (preprocessing X G raw) = inr df ->
  exists subject,
    In (ToFeather (path_join (output_path C)
                             (fst (splitext file) +s+ "_epoched.feather"))
                  (map (pair subject) df))
       (output (driver_iteration X C G index total file)).
Proof.
  intros Hload Hpre.
  destruct (export_epochs_writes C file df) as [subject [_ Hexport]].
  exists subject. unfold driver_iteration.
  destruct (loading X (data_path C) file true) as [o1 [e | r]];
    simpl in Hload; [discriminate |]. injection Hload as ->.
  destruct (preprocessing X G raw) as [o2 [e | d]] eqn:Hrun;
    simpl in Hpre; [discriminate |]. injection Hpre as ->.
  cbn [bind print try_except]. rewrite Hrun. cbn [bind]. rewrite Hexport.
  cbn [output fst app]. right. right.
  apply in_or_app. right. apply in_or_app. right. now left.
Qed.

(** One iteration on a recording whose only seizure is too short to win
    an epoch.  With [np] bound the file is written, empty; under the
    notebook's namespace [reshape_df] raises and nothing is written. *)
Example driver_iteration_brief_seizure_np_bound :
  feather_files
    (output (driver_iteration (external_of raw_brief_seizure frame_two_epochs)
                              config_example globals_with_np 1 1
                              "EXP_EMC_M15_0000615#01.edf"))
  = [("FEATHER/EXP_EMC_M15_0000615#01_epoched.feather", [])].
Proof. vm_compute. reflexivity. Qed.

Example driver_iteration_brief_seizure_notebook :
  output (driver_iteration (external_of raw_brief_seizure frame_two_epochs)
                           config_example notebook_globals 1 1
                           "EXP_EMC_M15_0000615#01.edf")
  = [ Printed "-------------------------------------------------";
      Printed "Handling EXP_EMC_M15_0000615#01.edf... EEG 1/1";
      Printed "Read"; Printed "Loaded"; Printed "name 'np' is not defined";
      Printed "Found 1 seizures"; Printed "Epoched";
      Printed "Converted to DataFrame"; Printed "name 'df' is not defined";
      Printed "Labeled";
      Printed "Error with EXP_EMC_M15_0000615#01.edf: name 'np' is not defined" ].
Proof. vm_compute. reflexivity. Qed.

(** ** Reshaping: the label of an epoch *)

Lemma insert_sorted_In (x y : Z) (l : list Z) :
  In y (insert_sorted x l) <-> y = x \/ In y l.
Proof.
  induction l as [| z l IH]; simpl.
  - intuition.
  - destruct (x <=? z)%Z; simpl; [intuition |].
    rewrite IH. intuition.
Qed.

Lemma sort_values_In (y : Z) (l : list Z) :
  In y (sort_values l) <-> In y l.
Proof.
  induction l as [| x l IH]; simpl; [reflexivity |].
  rewrite insert_sorted_In, IH. intuition.
Qed.

Lemma sort_values_head_least (l : list Z) :
  forall v rest,
    sort_values l = v :: rest ->
    forall x, In x l -> (v <= x)%Z.
Proof.
  induction l as [| a l IH]; intros v rest Hsort x Hx; [contradiction |].
  simpl in Hsort.
  destruct (sort_values l) as [| y s] eqn:Hs.
  - simpl in Hsort. injection Hsort as <- _.
    destruct Hx as [<- | Hx]; [lia |].
    apply sort_values_In in Hx. rewrite Hs in Hx. contradiction.
  - simpl in Hsort. destruct (Z.leb_spec a y) as [Hay | Hya].
    + injection Hsort as <- _.
      destruct Hx as [<- | Hx]; [lia |].
      specialize (IH y s eq_refl x Hx). lia.
    + injection Hsort as <- _.
      destruct Hx as [<- | Hx]; [lia |].
      exact (IH y s eq_refl x Hx).
Qed.

Lemma fold_max_upper {A} (f : A -> nat) (l : list A) (x : A) :
  In x l -> f x <= fold_right Nat.max 0 (map f l).
Proof.
  induction l as [| a l IH]; intros Hx; [contradiction |].
  simpl. destruct Hx as [<- | Hx]; [lia |].
  specialize (IH Hx). lia.
Qed.

Lemma fold_max_attained {A} (f : A -> nat) (l : list A) :
  l <> [] -> exists x, In x l /\ f x = fold_right Nat.max 0 (map f l).
Proof.
  induction l as [| a l IH]; intros Hne; [congruence |].
  destruct l as [| b l].
  - exists a. split; [now left |]. simpl. lia.
  - destruct IH as [x [Hx Hfx]]; [discriminate |].
    change (fold_right Nat.max 0 (map f (a :: b :: l)))
      with (Nat.max (f a) (fold_right Nat.max 0 (map f (b :: l)))).
    destruct (Nat.le_ge_cases (f a) (fold_right Nat.max 0 (map f (b :: l)))).
    + exists x. split; [now right |]. lia.
    + exists a. split; [now left |]. lia.
Qed.

Lemma occurrences_le_max (v : Z) (l : list Z) :
  occurrences v l <= max_occurrences l.
Proof.
  destruct (in_dec Z.eq_dec v l) as [Hin | Hout].
  - unfold max_occurrences.
    exact (fold_max_upper (fun v => occurrences v l) l v Hin).
  - unfold occurrences. rewrite (proj1 (count_occ_not_In Z.eq_dec l v) Hout).
    lia.
Qed.

Lemma mode_In (v : Z) (l : list Z) :
  In v (mode l) <-> In v l /\ occurrences v l = max_occurrences l.
Proof.
  unfold mode. rewrite sort_values_In, filter_In, nodup_In, Nat.eqb_eq.
  reflexivity.
Qed.

(** The label of a non-empty group is its smallest mode: a value of the
    group that no value outnumbers, and the least of the values that
    occur as often. *)
Lemma label_of_epoch_smallest_mode (x : list Z) :
  x <> [] ->
  exists m,
    label_of_epoch x = inr m /\
    In m x /\
    (forall v, occurrences v x <= occurrences m x) /\
    (forall v, In v x -> occurrences v x = occurrences m x -> (m <= v)%Z).
Proof.
  intros Hne. unfold label_of_epoch.
  destruct (mode x) as [| m rest] eqn:Hmode.
  - exfalso.
    destruct (fold_max_attained (fun v => occurrences v x) x Hne) as [v [Hv Hmax]].
    assert (Hin : In v (mode x)) by (apply mode_In; split; assumption).
    rewrite Hmode in Hin. contradiction.
  - exists m. split; [reflexivity |].
    assert (Hm : In m (mode x)) by (rewrite Hmode; now left).
    apply mode_In in Hm. destruct Hm as [Hin Hmax].
    split; [exact Hin |]. split.
    + intros v. rewrite Hmax. apply occurrences_le_max.
    + intros v Hv Hsame.
      unfold mode in Hmode.
      eapply sort_values_head_least; [exact Hmode |].
      apply filter_In. split; [now apply nodup_In |].
      apply Nat.eqb_eq. congruence.
Qed.

Lemma label_of_binary_epoch (x : list Z) :
  x <> [] ->
  Forall (fun v => v = 0%Z \/ v = 1%Z) x ->
  exists m,
    label_of_epoch x = inr m /\
    In m x /\
    (forall v, occurrences v x <= occurrences m x) /\
    (occurrences 1%Z x = occurrences 0%Z x -> m = 0%Z) /\
    (occurrences 0%Z x < occurrences 1%Z x -> m = 1%Z) /\
    (occurrences 1%Z x < occurrences 0%Z x -> m = 0%Z).
Proof.
  intros Hne Hbin.
  destruct (label_of_epoch_smallest_mode x Hne) as [m [Hlabel [Hin [Hmost Hleast]]]].
  exists m. split; [exact Hlabel |]. split; [exact Hin |]. split; [exact Hmost |].
  assert (Hm : m = 0%Z \/ m = 1%Z).
  { rewrite Forall_forall in Hbin. now apply Hbin. }
  assert (Hpos : 0 < occurrences m x).
  { unfold occurrences. now apply count_occ_In. }
  split; [| split].
  - intros Htie. destruct Hm as [-> | ->]; [reflexivity |].
    assert (H0 : In 0%Z x).
    { apply (count_occ_In Z.eq_dec). unfold occurrences in *. lia. }
    specialize (Hleast 0%Z H0 (eq_sym Htie)). lia.
  - intros Hmore. destruct Hm as [-> | ->]; [| reflexivity].
    specialize (Hmost 1%Z). lia.
  - intros Hmore. destruct Hm as [-> | ->]; [reflexivity |].
    specialize (Hmost 0%Z). lia.
Qed.

(** ** Reshaping: the table *)

Lemma mapM_value {A B} (f : A -> M B) (l : list A) :
  (forall x, In x l -> exists y, value (f x) = inr y) ->
  exists ys,
    value (mapM f l) = inr ys /\
    Forall2 (fun x y => value (f x) = inr y) l ys.
Proof.
  induction l as [| a l IH]; intros Hall.
  - exists []. split; [reflexivity | constructor].
  - destruct (Hall a (or_introl eq_refl)) as [y Hy].
    destruct IH as [ys [Hys Hrel]].
    { intros x Hx. apply Hall. now right. }
    exists (y :: ys). split.
    + simpl. rewrite value_bind, Hy, value_bind, Hys. reflexivity.
    + now constructor.
Qed.

Lemma index_of_present (c : string) (cols : list string) :
  has_column c cols = true -> exists i, index_of c cols = Some i.
Proof.
  induction cols as [| c' cols IH]; simpl; [discriminate |].
  destruct (String.eqb c c'); [now exists 0 |].
  simpl. intros H. destruct (IH H) as [i ->]. now exists (S i).
Qed.

Lemma channel_arrays_ok (X : External) (G : globals) (df : Frame Labeled)
    (keys : list Z) (c : string) :
  bound "np" G = true ->
  has_column c (channels df) = true ->
  exists arrays, value (channel_arrays X G df keys c) = inr arrays.
Proof.
  intros Hnp Hc. unfold channel_arrays.
  destruct (index_of_present _ _ Hc) as [i ->].
  destruct (mapM_value
              (fun k =>
                 _ <- lift (lookup_global G "np") ;;
                 ret (map (fun r => float32 X (nth i (values (lsample r)) 0%Q))
                          (group df k))) keys) as [ys [Hys _]].
  - intros k _. eexists. unfold lookup_global. rewrite Hnp. reflexivity.
  - now exists ys.
Qed.

Lemma group_of_key_nonempty (df : Frame Labeled) (k : Z) :
  In k (group_keys df) -> group df k <> [].
Proof.
  unfold group_keys. rewrite sort_values_In, nodup_In, in_map_iff.
  intros [r [Hk Hr]] Hnil.
  assert (Hin : In r (group df k)).
  { apply filter_In. split; [exact Hr |]. now apply Z.eqb_eq. }
  rewrite Hnil in Hin. contradiction.
Qed.

Lemma build_rows_related (R : Z -> Z -> Prop) (keys labels : list Z) :
  Forall2 R keys labels ->
  forall agg,
    Forall2 (fun k row => e_epoch row = k /\ R k (e_seizure row))
            keys (build_rows keys agg labels).
Proof.
  induction 1 as [| k l keys labels Hkl _ IH]; intros agg; simpl.
  - constructor.
  - constructor; [now split | apply IH].
Qed.

Lemma Forall2_refine {A B} (P Q : A -> B -> Prop) (l : list A) (l' : list B) :
  Forall2 P l l' ->
  (forall a b, In a l -> P a b -> Q a b) ->
  Forall2 Q l l'.
Proof.
  induction 1 as [| a b l l' Hab _ IH]; intros Himp; constructor.
  - apply Himp; [now left | exact Hab].
  - apply IH. intros a' b' Ha'. apply Himp. now right.
Qed.

(** With [np] bound and the nineteen channel columns present, [reshape_df]
    returns one row per epoch, in ascending epoch order, labelled by
    [label_of_epoch] on the labels of the epoch's samples. *)
Lemma reshape_df_rows (X : External) (G : globals) (df : Frame Labeled) :
  bound "np" G = true ->
  forallb (fun c => has_column c (channels df)) eeg_channels = true ->
  exists t,
    value (reshape_df X G df) = inr t /\
    Forall2 (fun k row =>
               e_epoch row = k /\
               label_of_epoch (map seizure (group df k)) = inr (e_seizure row))
            (group_keys df) t.
Proof.
  intros Hnp Hcols. unfold reshape_df.
  destruct (mapM_value (channel_arrays X G df (group_keys df)) eeg_channels)
    as [agg [Hagg _]].
  { intros c Hc. apply channel_arrays_ok; [exact Hnp |].
    rewrite forallb_forall in Hcols. now apply Hcols. }
  destruct (mapM_value
              (fun k => lift (label_of_epoch (map seizure (group df k))))
              (group_keys df)) as [labels [Hlabels Hrel]].
  { intros k Hk.
    destruct (label_of_epoch_smallest_mode (map seizure (group df k)))
      as [m [Hm _]].
    - intros Hnil. apply map_eq_nil in Hnil.
      now apply (group_of_key_nonempty df k).
    - exists m. exact Hm. }
  exists (build_rows (group_keys df) agg labels). split.
  - rewrite value_bind, Hagg, value_bind, Hlabels, value_print_then.
    reflexivity.
  - apply (build_rows_related
             (fun k l => label_of_epoch (map seizure (group df k)) = inr l)).
    exact Hrel.
Qed.

(** C2, as amended.  With [np] bound, the channel columns present and 0/1
    sample labels, [reshape_df] labels every epoch with a statistical mode
    of its samples' labels: the majority label when there is one, and 0
    on a tie, whichever label the epoch's samples start with. *)
Theorem reshape_df_labels_epoch_by_smallest_mode
    (X : External) (G : globals) (df : Frame Labeled) :
  bound "np" G = true ->
  forallb (fun c => has_column c (channels df)) eeg_channels = true ->
  Forall (fun r => seizure r = 0%Z \/ seizure r = 1%Z) (rows df) ->
  exists t,
    value (reshape_df X G df) = inr t /\
    Forall2
      (fun k row =>
         e_epoch row = k /\
         let x := map seizure (group df k) in
         In (e_seizure row) x /\
         (forall v, occurrences v x <= occurrences (e_seizure row) x) /\
         (occurrences 1%Z x = occurrences 0%Z x -> e_seizure row = 0%Z) /\
         (occurrences 0%Z x < occurrences 1%Z x -> e_seizure row = 1%Z) /\
         (occurrences 1%Z x < occurrences 0%Z x -> e_seizure row = 0%Z))
      (group_keys df) t.
Proof.
  intros Hnp Hcols Hbin.
  destruct (reshape_df_rows X G df Hnp Hcols) as [t [Ht Hrows]].
  exists t. split; [exact Ht |].
  eapply Forall2_refine; [exact Hrows |].
  intros k row Hk [Hepoch Hlabel]. split; [exact Hepoch |].
  cbv zeta.
  destruct (label_of_binary_epoch (map seizure (group df k))) as [m [Hm Hprops]].
  - intros Hnil. apply map_eq_nil in Hnil.
    now apply (group_of_key_nonempty df k).
  - apply Forall_forall. intros v Hv. apply in_map_iff in Hv.
    destruct Hv as [r [<- Hr]]. apply filter_In in Hr.
    rewrite Forall_forall in Hbin. now apply Hbin.
  - rewrite Hlabel in Hm. injection Hm as <-. exact Hprops.
Qed.

Lemma reshape_df_labels_epoch_by_smallest_mode_witness :
  exists t,
    value (reshape_df (external_of raw_brief_seizure frame_two_epochs)
                      globals_with_np frame_tie_then_majority) = inr t /\
    Forall2
      (fun k row =>
         e_epoch row = k /\
         let x := map seizure (group frame_tie_then_majority k) in
         In (e_seizure row) x /\
         (forall v, occurrences v x <= occurrences (e_seizure row) x) /\
         (occurrences 1%Z x = occurrences 0%Z x -> e_seizure row = 0%Z) /\
         (occurrences 0%Z x < occurrences 1%Z x -> e_seizure row = 1%Z) /\
         (occurrences 1%Z x < occurrences 0%Z x -> e_seizure row = 0%Z))
      (group_keys frame_tie_then_majority) t.
Proof.
  apply (reshape_df_labels_epoch_by_smallest_mode
           (external_of raw_brief_seizure frame_two_epochs) globals_with_np
           frame_tie_then_majority).
  - reflexivity.
  - reflexivity.
  - repeat (apply Forall_cons;
            [first [left; reflexivity | right; reflexivity] |]).
    apply Forall_nil.
Defined.

(** C2, as stated, fails on a tie that starts with 1: the samples of epoch
    0 are labelled 1, 0, 0, 1, the first-occurring mode is 1, and the
    epoch is labelled 0.  Epoch 1 has a majority of 1 and is labelled 1. *)
Lemma tie_starting_with_one_is_labelled_zero :
  occurrences 0%Z [1; 0; 0; 1]%Z = occurrences 1%Z [1; 0; 0; 1]%Z /\
  first_occurring_mode [1; 0; 0; 1]%Z = Some 1%Z /\
  label_of_epoch [1; 0; 0; 1]%Z = inr 0%Z /\
  map seizure (group frame_tie_then_majority 0) = [1; 0; 0; 1]%Z /\
  exists t,
    value (reshape_df (external_of raw_brief_seizure frame_two_epochs)
                      globals_with_np frame_tie_then_majority) = inr t /\
    map (fun row => (e_epoch row, e_seizure row)) t = [(0, 0); (1, 1)]%Z.
Proof.
  repeat split. eexists. split; reflexivity.
Qed.

(** ** Large file handling: the emitted table *)

(** C4.  What the large-file cell emits where the claim asks for equal
    counts: with [np] bound, the channel columns present and at least [N]
    epochs, the table holds [N] rows and every row is labelled 0; it has
    no label-1 row, so the two label counts are 0 and [N]. *)
Theorem large_file_table_holds_label_zero_only
    (X : External) (G : globals) (df : Frame Sample) (N : nat) :
  choice_ok (choice X) ->
  bound "np" G = true ->
  forallb (fun c => has_column c (channels df)) eeg_channels = true ->
  N <= length (group_keys (label_all_zero df)) ->
  exists t,
    value (large_file_table X G df N) = inr t /\
    length t = N /\
    Forall (fun r => e_seizure r = 0%Z) t /\
    count_label 1 t = 0 /\
    count_label 0 t = N.
Proof.
  intros Hchoice Hnp Hcols HN.
  destruct (reshape_df_rows X G (label_all_zero df) Hnp Hcols) as [t0 [Ht0 Hrows]].
  assert (Hzero0 : Forall (fun r => e_seizure r = 0%Z) t0).
  { clear Ht0 HN. induction Hrows as [| k row keys t0 [_ Hlabel] _ IH];
      constructor; [| exact IH].
    unfold label_of_epoch, iat0 in Hlabel.
    destruct (mode (map seizure (group (label_all_zero df) k))) as [| m rest]
      eqn:Hmode; [discriminate |].
    injection Hlabel as <-.
    assert (Hm : In m (mode (map seizure (group (label_all_zero df) k))))
      by (rewrite Hmode; now left).
    apply mode_In in Hm. destruct Hm as [Hm _].
    apply in_map_iff in Hm. destruct Hm as [r [<- Hr]].
    apply filter_In in Hr. destruct Hr as [Hr _].
    unfold label_all_zero in Hr. cbn [rows] in Hr.
    apply in_map_iff in Hr. destruct Hr as [s [<- _]]. reflexivity. }
  assert (Hlen0 : length t0 = length (group_keys (label_all_zero df))).
  { symmetry. eapply Forall2_length. exact Hrows. }
  destruct (sample_rows_spec X Hchoice N t0 ltac:(lia))
    as [positions [Hsample [_ [_ [_ Hlen]]]]].
  assert (Hzero : Forall (fun r => e_seizure r = 0%Z) (take positions t0)).
  { apply Forall_forall. intros r Hr. apply take_incl in Hr.
    rewrite Forall_forall in Hzero0. now apply Hzero0. }
  exists (take positions t0). split.
  { unfold large_file_table.
    rewrite value_print_then, value_bind, Ht0, value_lift. exact Hsample. }
  split; [exact Hlen |]. split; [exact Hzero |]. split.
  - unfold count_label.
    now rewrite (filter_is_label_other 1 0 _ Hzero) by discriminate.
  - unfold count_label. now rewrite (filter_is_label_same 0 _ Hzero).
Qed.

Lemma large_file_table_holds_label_zero_only_witness :
  exists t,
    value (large_file_table (external_of raw_brief_seizure frame_two_epochs)
                            globals_with_np frame_two_epochs 1) = inr t /\
    length t = 1 /\
    Forall (fun r => e_seizure r = 0%Z) t /\
    count_label 1 t = 0 /\
    count_label 0 t = 1.
Proof.
  apply (large_file_table_holds_label_zero_only
           (external_of raw_brief_seizure frame_two_epochs) globals_with_np
           frame_two_epochs 1).
  - exact first_positions_ok.
  - reflexivity.
  - reflexivity.
  - vm_compute. lia.
Defined.

(** The failing input of C4: for a table of two epochs and [N = 1] the
    file written holds one label-0 row and no label-1 row. *)
Lemma large_file_table_is_not_balanced :
  exists t subject,
    value (large_file_table (external_of raw_brief_seizure frame_two_epochs)
                            globals_with_np frame_two_epochs 1) = inr t /\
    feather_files
      (output (large_file_export
                 (external_of raw_brief_seizure frame_two_epochs)
                 config_example globals_with_np
                 "EXP_EMC_M15_0000099#01.edf" frame_two_epochs 1))
    = [("FEATHER/EXP_EMC_M15_0000099#01_epoched.feather",
        map (pair subject) t)] /\
    count_label 1 t = 0 /\
    count_label 0 t = 1 /\
    count_label 1 t <> count_label 0 t.
Proof.
  eexists. eexists. split; [reflexivity |]. split; [reflexivity |].
  split; [reflexivity |]. split; [reflexivity |]. discriminate.
Qed.

(** ** Large file handling: the interictal intervals *)

Lemma rev_head_is_last {A} (l : list A) (p : A) (r : list A) :
  rev l = p :: r ->
  length l = S (length r) /\ nth_error l (length r) = Some p.
Proof.
  intros H. apply (f_equal (@rev A)) in H. rewrite rev_involutive in H.
  subst l. simpl. rewrite length_app, length_rev. simpl. split; [lia |].
  rewrite nth_error_app2 by (rewrite length_rev; lia).
  rewrite length_rev, Nat.sub_diag. reflexivity.
Qed.

Lemma last_seizure_end_snoc (before : list Interval) (iv : Interval) :
  last_seizure_end (before ++ [iv]) = end_ iv.
Proof. unfold last_seizure_end. now rewrite rev_app_distr. Qed.

Lemma loop_builds_gaps_before (rest : list Interval) :
  forall before,
    mapM (gap_at (before ++ rest)) (seq (length before) (length rest))
    = ret (gaps_before (last_seizure_end before) rest).
Proof.
  induction rest as [| iv rest IH]; intros before; [reflexivity |].
  cbn [length seq mapM gaps_before].
  assert (Hiv : nth_error (before ++ iv :: rest) (length before) = Some iv).
  { rewrite nth_error_app2 by lia. now rewrite Nat.sub_diag. }
  assert (Hhead : gap_at (before ++ iv :: rest) (length before)
                  = ret (last_seizure_end before, onset iv)).
  { unfold last_seizure_end. destruct (rev before) as [| p r] eqn:Hrev.
    - assert (before = []) as ->.
      { apply (f_equal (@rev _)) in Hrev. now rewrite rev_involutive in Hrev. }
      reflexivity.
    - destruct (rev_head_is_last _ _ _ Hrev) as [Hlen Hp].
      rewrite Hlen. unfold gap_at, loc. rewrite <- Hlen, Hiv.
      rewrite nth_error_app1 by lia. rewrite Hp. reflexivity. }
  rewrite Hhead.
  specialize (IH (before ++ [iv])).
  rewrite <- app_assoc, length_app in IH. cbn [app length] in IH.
  rewrite Nat.add_1_r, last_seizure_end_snoc in IH.
  rewrite IH. reflexivity.
Qed.

Lemma gaps_before_length (seizures : list Interval) (e : Q) :
  length (gaps_before e seizures) = length seizures.
Proof.
  revert e. induction seizures as [| iv s IH]; intros e; simpl;
    [reflexivity | now rewrite IH].
Qed.

Lemma interictal_intervals_value (seizures : list Interval) (raw : Raw) :
  interictal_intervals seizures raw
  = match rev seizures with
    | [] => ([], inl (IndexError "single positional indexer is out-of-bounds"))
    | iv :: _ =>
        ret (map (fun p => mkGap (fst p) (snd p) "interictal")
                 (gaps_before 0%Q seizures ++ [(duration iv, last_end raw)]))
    end.
Proof.
  unfold interictal_intervals.
  pose proof (loop_builds_gaps_before seizures []) as Hloop.
  cbn [app length] in Hloop. rewrite Hloop.
  change (last_seizure_end []) with 0%Q.
  unfold iloc_last. destruct (rev seizures); reflexivity.
Qed.

Lemma bounds_of_rows (l : list (Q * Q)) :
  map bounds (map (fun p => mkGap (fst p) (snd p) "interictal") l) = l.
Proof.
  rewrite map_map. cbn [bounds start stop].
  rewrite map_ext with (g := fun p => p) by (intros [a b]; reflexivity).
  apply map_id.
Qed.

Lemma Forall2_last {A B} (R : A -> B -> Prop) (l1 : list A) (l2 : list B)
    (x : A) (y : B) :
  Forall2 R (l1 ++ [x]) (l2 ++ [y]) -> R x y.
Proof.
  intros H. apply Forall2_app_inv_l in H.
  destruct H as [l1' [l2' [_ [Hlast Heq]]]].
  inversion Hlast as [| ? y' ? t Hxy Hnil]; subst.
  inversion Hnil; subst.
  apply app_inj_tail in Heq. destruct Heq as [_ ->]. exact Hxy.
Qed.

(** C8.  The cell does not build the complementary set.  For a seizure
    table whose last row is the seizure [iv] it builds one row per
    seizure and a final one, all labelled interictal.  The rows of the
    loop are the gaps the claim lists: from time 0 to the first onset, and
    from each seizure's end to the next onset.  The final row starts at
    [seizures.iloc[-1, 1]], which is the last seizure's duration, where
    the complementary set has the last seizure's end, and stops one second
    before the time of the recording's last sample.  So whenever the last
    seizure's duration differs from its end, the table is not the
    complementary set, whatever is taken as the recording's end. *)
Theorem interictal_intervals_final_start_is_duration
    (before : list Interval) (iv : Interval) (raw : Raw) :
  ~ (duration iv == end_ iv)%Q ->
  exists intervals,
    interictal_intervals (before ++ [iv]) raw = ret intervals /\
    length intervals = S (length (before ++ [iv])) /\
    Forall (fun g => label g = "interictal") intervals /\
    map bounds intervals
      = gaps_before 0%Q (before ++ [iv])
        ++ [(duration iv, (recording_end raw - 1)%Q)] /\
    forall recording_end,
      complementary_intervals (before ++ [iv]) recording_end
        = gaps_before 0%Q (before ++ [iv]) ++ [(end_ iv, recording_end)] /\
      ~ Forall2 same_bounds (map bounds intervals)
                (complementary_intervals (before ++ [iv]) recording_end).
Proof.
  intros Hslip.
  rewrite interictal_intervals_value, rev_app_distr. cbn [rev app].
  eexists. split; [reflexivity |].
  split; [| split; [| split]].
  - rewrite length_map, length_app, gaps_before_length. cbn [length]. lia.
  - apply Forall_forall. intros g Hg. apply in_map_iff in Hg.
    destruct Hg as [p [<- _]]. reflexivity.
  - rewrite bounds_of_rows. reflexivity.
  - intros e. unfold complementary_intervals.
    rewrite last_seizure_end_snoc. split; [reflexivity |].
    rewrite bounds_of_rows. intros H.
    apply Forall2_last in H. destruct H as [Hstart _].
    cbn [fst] in Hstart. exact (Hslip Hstart).
Qed.

Lemma interictal_intervals_final_start_is_duration_witness :
  exists intervals,
    interictal_intervals ([mkInterval 12 10 22] ++ [mkInterval 100 20 120])%Q
                         raw_two_seizures = ret intervals /\
    length intervals
    = S (length ([mkInterval 12 10 22] ++ [mkInterval 100 20 120])%Q) /\
    Forall (fun g => label g = "interictal") intervals /\
    map bounds intervals
      = gaps_before 0%Q ([mkInterval 12 10 22] ++ [mkInterval 100 20 120])%Q
        ++ [(duration (mkInterval 100 20 120),
             (recording_end raw_two_seizures - 1))]%Q /\
    forall recording_end,
      complementary_intervals
        ([mkInterval 12 10 22] ++ [mkInterval 100 20 120])%Q recording_end
        = gaps_before 0%Q ([mkInterval 12 10 22] ++ [mkInterval 100 20 120])%Q
          ++ [(end_ (mkInterval 100 20 120)%Q, recording_end)] /\
      ~ Forall2 same_bounds (map bounds intervals)
                (complementary_intervals
                   ([mkInterval 12 10 22] ++ [mkInterval 100 20 120])%Q
                   recording_end).
Proof.
  apply (interictal_intervals_final_start_is_duration
           [mkInterval 12 10 22]%Q (mkInterval 100 20 120)%Q raw_two_seizures).
  intros H. vm_compute in H. discriminate H.
Defined.

(** The failing input of C8: for seizures at 12 s to 22 s and 100 s to
    120 s in a 1000 s recording the final row runs from 20, the last
    seizure's duration, to one second before the last sample, where the
    complementary set has the gap from 120 to the recording's end. *)
Example interictal_intervals_two_seizures :
  exists intervals,
    interictal_intervals two_seizure_intervals raw_two_seizures = ret intervals /\
    Forall2 same_bounds (map bounds intervals)
            [(0, 12); (22, 100); (20, recording_end raw_two_seizures - 1)]%Q /\
    Forall2 same_bounds
            (complementary_intervals two_seizure_intervals
                                     (recording_end raw_two_seizures))
            [(0, 12); (22, 100); (120, recording_end raw_two_seizures)]%Q.
Proof.
  eexists. split; [reflexivity |].
  split; repeat constructor; reflexivity.
Qed.

(** ** The notebook's namespace and the reshaping step *)

Lemma group_keys_nonempty (df : Frame Labeled) :
  rows df <> [] -> group_keys df <> [].
Proof.
  intros Hne Hnil. destruct (rows df) as [| r l] eqn:Hrows; [congruence |].
  assert (Hin : In (epoch (lsample r)) (group_keys df)).
  { unfold group_keys. rewrite sort_values_In, nodup_In, Hrows. now left. }
  rewrite Hnil in Hin. contradiction.
Qed.

(** Under the notebook's own namespace [reshape_df] raises on every table
    that has a row: [KeyError] when the first channel column is missing,
    [NameError] on [np] otherwise.  The label column is never reached. *)
Lemma reshape_df_notebook_raises (X : External) (df : Frame Labeled) :
  rows df <> [] ->
  value (reshape_df X notebook_globals df)
  = inl (if has_column "Fp1" (channels df)
         then NameError "np"
         else KeyError "Column not found: Fp1").
Proof.
  intros Hne. apply group_keys_nonempty in Hne.
  unfold reshape_df. rewrite value_bind.
  change eeg_channels with ("Fp1" :: tl eeg_channels).
  cbn [mapM]. rewrite value_bind.
  unfold channel_arrays at 1.
  destruct (has_column "Fp1" (channels df)) eqn:Hcol.
  - destruct (index_of_present _ _ Hcol) as [i ->].
    destruct (group_keys df) as [| k keys]; [congruence |].
    reflexivity.
  - assert (Hnone : index_of "Fp1" (channels df) = None).
    { clear Hne. revert Hcol. unfold has_column.
      induction (channels df) as [| c cols IH]; [reflexivity |].
      cbn [existsb index_of].
      destruct (String.eqb "Fp1" c); cbn [orb]; [intros H; discriminate H |].
      intros H. now rewrite (IH H). }
    rewrite Hnone. reflexivity.
Qed.

(** So is the table of the large-file cell. *)
Example large_file_table_notebook_raises :
  value (large_file_table (external_of raw_brief_seizure frame_two_epochs)
                          notebook_globals frame_two_epochs 1)
  = inl (NameError "np").
Proof. reflexivity. Qed.

(** * Further properties of the pipeline *)

(** ** Effects of the stages *)

Lemma feather_files_app (a b : list event) :
  feather_files (a ++ b) = feather_files a ++ feather_files b.
Proof.
  induction a as [| ev a IH]; [reflexivity |].
  destruct ev; simpl; now rewrite IH.
Qed.

Lemma writes_nothing_bind {A B} (m : M A) (f : A -> M B) :
  writes_nothing m -> (forall a, writes_nothing (f a)) ->
  writes_nothing (bind m f).
Proof.
  unfold writes_nothing. intros Hm Hf.
  destruct m as [out [e | a]]; simpl in *; [exact Hm |].
  specialize (Hf a). destruct (f a) as [out' r]. simpl in *.
  now rewrite feather_files_app, Hm, Hf.
Qed.

Lemma writes_nothing_try_except {A} (m : M A) (h : exn -> M A) :
  writes_nothing m -> (forall e, writes_nothing (h e)) ->
  writes_nothing (try_except m h).
Proof.
  unfold writes_nothing. intros Hm Hh.
  destruct m as [out [e | a]]; simpl in *; [| exact Hm].
  specialize (Hh e). destruct (h e) as [out' r]. simpl in *.
  now rewrite feather_files_app, Hm, Hh.
Qed.

Lemma writes_nothing_mapM {A B} (f : A -> M B) (l : list A) :
  (forall x, writes_nothing (f x)) -> writes_nothing (mapM f l).
Proof.
  intros Hf. induction l as [| x l IH]; [reflexivity |].
  simpl. apply writes_nothing_bind; [apply Hf |].
  intros y. apply writes_nothing_bind; [exact IH |].
  intros ys. reflexivity.
Qed.

(** Stage by stage: a goal [writes_nothing m] for a stage built from
    [print], [lift], [ret], [raise] and the combinators. *)
Ltac quiet :=
  repeat first
    [ reflexivity
    | apply writes_nothing_bind
    | apply writes_nothing_try_except
    | apply writes_nothing_mapM
    | intro
    | match goal with
      | |- writes_nothing (match ?x with _ => _ end) => destruct x
      end ].

Lemma preprocess_writes_nothing (G : globals) (raw : Raw) :
  writes_nothing (preprocess G raw).
Proof. unfold preprocess. quiet. Qed.

Lemma seizure_annotations_writes_nothing (raw : Raw) :
  writes_nothing (seizure_annotations raw).
Proof. unfold seizure_annotations. quiet. Qed.

Lemma create_epochs_writes_nothing (X : External) (G : globals) (raw : Raw)
    (duration overlap : Q) :
  writes_nothing (create_epochs X G raw duration overlap).
Proof. unfold create_epochs. quiet. Qed.

Lemma labeling_writes_nothing (df : Frame Timed) (intervals : list Interval) :
  writes_nothing (labeling df intervals).
Proof. unfold labeling. quiet. Qed.

Lemma reshape_df_writes_nothing (X : External) (G : globals) (df : Frame Labeled) :
  writes_nothing (reshape_df X G df).
Proof. unfold reshape_df, channel_arrays. quiet. Qed.

Lemma epochs_seizure_based_writes_nothing (X : External) (df : EpochTable) :
  writes_nothing (epochs_seizure_based X df).
Proof. unfold epochs_seizure_based. quiet. Qed.

Lemma load_raw_writes_nothing (X : External) (file : string) (s l : bool) :
  writes_nothing (load_raw X file s l).
Proof. unfold load_raw. quiet. Qed.

Lemma preprocessing_writes_nothing (X : External) (G : globals) (raw : option Raw) :
  writes_nothing (preprocessing X G raw).
Proof.
  unfold preprocessing. destruct raw as [raw |]; [| reflexivity].
  apply writes_nothing_bind; [apply preprocess_writes_nothing |]. intros raw1.
  apply writes_nothing_bind; [apply seizure_annotations_writes_nothing |].
  intros [raw2 ivs].
  apply writes_nothing_bind; [apply create_epochs_writes_nothing |]. intros ep.
  apply writes_nothing_bind; [apply labeling_writes_nothing |]. intros df.
  apply writes_nothing_bind; [apply reshape_df_writes_nothing |]. intros t.
  apply writes_nothing_bind; [apply epochs_seizure_based_writes_nothing |].
  intros t'. reflexivity.
Qed.

(** ** Values of the stages *)

Lemma load_raw_value (X : External) (file : string)
    (seizure_files_only loading : bool) :
  value (load_raw X file seizure_files_only loading)
  = inr (match read_raw_edf X file with
         | inl _ => None
         | inr raw =>
             if seizure_files_only && negb (any_seizure_marker raw) then None
             else if loading
                  then if fits_in_memory raw
                       then Some (apply_step LoadData raw)
                       else None
                  else Some raw
         end).
Proof.
  unfold load_raw, load_data.
  destruct (read_raw_edf X file) as [e | raw]; [reflexivity |].
  cbn -[any_seizure_marker].
  destruct (seizure_files_only && negb (any_seizure_marker raw));
    [reflexivity |].
  destruct loading; [| reflexivity].
  destruct (fits_in_memory raw); reflexivity.
Qed.

Lemma preprocess_value (G : globals) (raw : Raw) :
  exists raw',
    value (preprocess G raw) = inr raw' /\
    ch_names raw' = ch_names raw /\
    annotations raw' = annotations raw /\
    fits_in_memory raw' = fits_in_memory raw /\
    (sfreq raw' = sfreq raw \/ sfreq raw' = 256%Q) /\
    exists steps, history raw' = history raw ++ steps.
Proof.
  unfold preprocess. destruct (lookup_global G "np") as [e | []].
  - eexists. split; [reflexivity |].
    do 3 (split; [reflexivity |]). split; [now left |].
    exists [SetChannelTypes; SetMontage "standard_1020"].
    cbn. now rewrite <- app_assoc.
  - cbn [sfreq apply_step].
    destruct (Qeq_bool (sfreq raw) 256); cbn.
    + eexists. split; [reflexivity |].
      do 3 (split; [reflexivity |]). split; [now left |].
      eexists. cbn. rewrite <- !app_assoc. reflexivity.
    + eexists. split; [reflexivity |].
      do 3 (split; [reflexivity |]). split; [now right |].
      eexists. cbn. rewrite <- !app_assoc. reflexivity.
Qed.

Lemma create_epochs_value (X : External) (G : globals) (raw : Raw)
    (duration overlap : Q) :
  value (create_epochs X G raw duration overlap)
  = match epochs_to_data_frame X raw duration with
    | inr df0 => inr (add_count df0)
    | inl _ => inl (UnboundLocalError "df_epochs")
    end.
Proof.
  unfold create_epochs, eval_df_epochs_columns.
  destruct (epochs_to_data_frame X raw duration); [reflexivity |].
  destruct (lookup_global G "df"); reflexivity.
Qed.

Lemma labeling_value (df_epochs : Frame Timed) (intervals : list Interval) :
  intervals <> [] ->
  is_monotonic (map count (rows df_epochs)) = true ->
  is_monotonic (map onset intervals) = true ->
  value (labeling df_epochs intervals)
  = inr (mkFrame (channels df_epochs)
           (map (fun r =>
                   mkLabeled (sample r)
                     [("duration",
                       option_map duration
                         (asof_backward (count r) intervals None))]
                     (if in_seizure (count r)
                           (asof_backward (count r) intervals None)
                      then 1%Z else 0%Z))
                (rows df_epochs))).
Proof.
  intros Hne Hleft Hright. unfold labeling, merge_asof.
  destruct intervals as [| iv0 ivs] eqn:Hivs; [congruence |].
  rewrite <- Hivs in *. rewrite Hleft, Hright.
  cbn [negb lift bind print ret value snd app]. now rewrite map_map.
Qed.

Lemma labeling_rows (df_epochs : Frame Timed) (intervals : list Interval)
    (df : Frame Labeled) :
  value (labeling df_epochs intervals) = inr df ->
  channels df = channels df_epochs /\
  length (rows df) = length (rows df_epochs).
Proof.
  unfold labeling. rewrite value_bind, value_lift.
  destruct (merge_asof (rows df_epochs) intervals) as [e | merged] eqn:Hmerge;
    [discriminate |].
  cbn. intros H. injection H as <-. split; [reflexivity |].
  cbn [rows]. rewrite length_map.
  unfold merge_asof in Hmerge. destruct intervals; [discriminate |].
  destruct (negb (is_monotonic (map count (rows df_epochs)))); [discriminate |].
  destruct (negb (is_monotonic (map onset (i :: intervals)))); [discriminate |].
  injection Hmerge as <-. now rewrite length_map.
Qed.

Lemma labeling_empty_table_raises (df_epochs : Frame Timed) :
  exists msg, value (labeling df_epochs []) = inl (MergeError msg).
Proof. eexists. reflexivity. Qed.

(** ** The driver loop *)

(** The files one iteration writes: the export of what [preprocessing]
    returned, or none. *)
Lemma driver_iteration_files (X : External) (C : Config) (G : globals)
    (index total : nat) (file : string) :
  exists subject,
    feather_files (output (driver_iteration X C G index total file))
    = match value (raw <- loading X (data_path C) file true ;;
                   preprocessing X G raw) with
      | inr df =>
          [(path_join (output_path C)
                      (fst (splitext file) +s+ "_epoched.feather"),
            map (pair subject) df)]
      | inl _ => []
      end.
Proof.
  destruct (extract_subject_id_epoched (fst (splitext file))) as [subject Hs].
  exists subject.
  pose proof (load_raw_writes_nothing X (path_join (data_path C) file) true true)
    as Hq1.
  unfold driver_iteration, loading in *. unfold writes_nothing in Hq1.
  destruct (load_raw X (path_join (data_path C) file) true true)
    as [o1 [e | raw]]; cbn [output fst] in Hq1.
  - cbn. now rewrite feather_files_app, Hq1.
  - pose proof (preprocessing_writes_nothing X G raw) as Hq2.
    unfold writes_nothing in Hq2.
    destruct (preprocessing X G raw) as [o2 [e | df]] eqn:Hrun;
      cbn [output fst] in Hq2.
    + cbn [bind print try_except value snd]. rewrite Hrun.
      cbn. now rewrite !feather_files_app, Hq1, Hq2.
    + cbn [bind print try_except value snd]. rewrite Hrun.
      unfold export_epochs, df_conversion. rewrite Hs.
      cbn. rewrite !feather_files_app, Hq1, Hq2. reflexivity.
Qed.


(** The value of [preprocessing], stage by stage. *)
Lemma preprocessing_value (X : External) (G : globals) (raw : Raw) :
  exists raw1,
    value (preprocess G raw) = inr raw1 /\
    annotations raw1 = annotations raw /\
    value (preprocessing X G (Some raw))
    = match epochs_to_data_frame X
              (set_annotations (filter is_seizure (annotations raw)) raw1) 10
      with
      | inl _ => inl (UnboundLocalError "df_epochs")
      | inr df0 =>
          match value (labeling (add_count df0)
                         (map interval_of
                              (filter is_seizure (annotations raw)))) with
          | inl e => inl e
          | inr df =>
              match value (reshape_df X G df) with
              | inl e => inl e
              | inr t => value (epochs_seizure_based X t)
              end
          end
      end.
Proof.
  destruct (preprocess_value G raw) as [raw1 [Hraw1 [_ [Hann _]]]].
  exists raw1. split; [exact Hraw1 |]. split; [exact Hann |].
  unfold preprocessing. rewrite value_bind, Hraw1, value_bind.
  unfold seizure_annotations at 1. rewrite value_print_then. cbn [value ret snd].
  rewrite Hann, value_bind, create_epochs_value.
  destruct (epochs_to_data_frame X
              (set_annotations (filter is_seizure (annotations raw)) raw1) 10)
    as [e | df0]; [reflexivity |].
  rewrite value_bind.
  destruct (value (labeling (add_count df0)
                     (map interval_of (filter is_seizure (annotations raw)))))
    as [e | df]; [reflexivity |].
  rewrite value_bind.
  destruct (value (reshape_df X G df)) as [e | t]; [reflexivity |].
  rewrite value_bind.
  destruct (value (epochs_seizure_based X t)); reflexivity.
Qed.

(** X1.  [load_raw] never raises.  It returns a recording exactly when the
    file can be read, the seizure filter (when asked for) finds the marker
    in some description and the samples (when asked for) fit in memory;
    the recording is the one read, marked as loaded when loading was asked
    for.  In every other case it returns [None]. *)
Theorem load_raw_returns_none_on_failure
    (X : External) (file : string) (seizure_files_only loading : bool) :
  exists r,
    value (load_raw X file seizure_files_only loading) = inr r /\
    forall raw',
      r = Some raw' <->
      exists raw,
        read_raw_edf X file = inr raw /\
        (seizure_files_only = true -> any_seizure_marker raw = true) /\
        (if loading
         then fits_in_memory raw = true /\ raw' = apply_step LoadData raw
         else raw' = raw).
Proof.
  eexists. split; [apply load_raw_value |].
  intros raw'. destruct (read_raw_edf X file) as [e | raw].
  - split; [discriminate |]. intros [raw0 [H _]]. discriminate.
  - destruct seizure_files_only, (any_seizure_marker raw) eqn:Hany,
      loading, (fits_in_memory raw) eqn:Hfits; cbn; split.
    all: try (intros H;
              first [ discriminate H
                    | injection H as <-; exists raw;
                      split; [reflexivity |];
                      split;
                      [ first [ intros _; assumption
                              | intros Hd; discriminate Hd ]
                      | first [ split; [assumption | reflexivity]
                              | reflexivity ] ] ]).
    all: intros [raw0 [Hread [Hsel Hload]]]; injection Hread as <-;
      first [ specialize (Hsel eq_refl); congruence
            | destruct Hload; congruence ].
Qed.





Lemma add_count_length (df0 : Frame Sample) :
  length (rows (add_count df0)) = length (rows df0).
Proof.
  unfold add_count. cbn [rows].
  rewrite length_map, length_combine, length_seq. lia.
Qed.

Lemma loading_value (X : External) (data_path file : string) (l : bool) :
  exists r,
    value (loading X data_path file l) = inr r /\
    forall raw',
      r = Some raw' ->
      exists raw,
        read_raw_edf X (path_join data_path file) = inr raw /\
        annotations raw' = annotations raw.
Proof.
  unfold loading. eexists. split; [apply load_raw_value |].
  intros raw'. destruct (read_raw_edf X (path_join data_path file)) as [e | raw];
    [discriminate |].
  destruct (true && negb (any_seizure_marker raw)); [discriminate |].
  destruct l; [destruct (fits_in_memory raw) |]; intros H;
    try discriminate; injection H as <-; exists raw; split; reflexivity.
Qed.

(** X4.  Under the notebook's own namespace no recording gets through:
    whenever the epoching yields a table with at least one row (MNE raises
    rather than return none), [preprocessing] raises for every recording
    and a driver iteration writes no file. *)
Theorem notebook_namespace_writes_no_file
    (X : External) (C : Config) (index total : nat) (file : string) :
  (forall raw duration df0,
     epochs_to_data_frame X raw duration = inr df0 -> rows df0 <> []) ->
  (forall raw, exists e, value (preprocessing X notebook_globals raw) = inl e) /\
  feather_files (output (driver_iteration X C notebook_globals index total file))
  = [].
Proof.
  intros Hrows.
  assert (Hpre : forall raw,
             exists e, value (preprocessing X notebook_globals raw) = inl e).
  { intros [raw |]; [| eexists; reflexivity].
    destruct (preprocessing_value X notebook_globals raw)
      as [raw1 [_ [_ ->]]].
    destruct (epochs_to_data_frame X
                (set_annotations (filter is_seizure (annotations raw)) raw1) 10)
      as [e | df0] eqn:Hep; [eexists; reflexivity |].
    destruct (value (labeling (add_count df0)
                       (map interval_of (filter is_seizure (annotations raw)))))
      as [e | df] eqn:Hlab; [eexists; reflexivity |].
    apply labeling_rows in Hlab. destruct Hlab as [_ Hlen].
    rewrite add_count_length in Hlen.
    rewrite reshape_df_notebook_raises; [eexists; reflexivity |].
    intros Hnil. apply (Hrows _ _ _ Hep).
    rewrite Hnil in Hlen. symmetry in Hlen. now apply length_zero_nil. }
  split; [exact Hpre |].
  destruct (driver_iteration_files X C notebook_globals index total file)
    as [subject ->].
  rewrite value_bind.
  destruct (value (loading X (data_path C) file true)) as [e | raw];
    [reflexivity |].
  destruct (Hpre raw) as [e ->]. reflexivity.
Qed.

Lemma notebook_namespace_writes_no_file_witness :
  (forall raw, exists e,
     value (preprocessing (external_of raw_brief_seizure frame_two_epochs)
                          notebook_globals raw) = inl e) /\
  feather_files
    (output (driver_iteration (external_of raw_brief_seizure frame_two_epochs)
                              config_example notebook_globals 1 1
                              "EXP_EMC_M15_0000615#01.edf"))
  = [].
Proof.
  apply (notebook_namespace_writes_no_file
           (external_of raw_brief_seizure frame_two_epochs) config_example 1 1
           "EXP_EMC_M15_0000615#01.edf").
  intros raw duration df0 H. injection H as <-. discriminate.
Defined.



(** ** Selection, extraction and normalisation *)

(** X6.  Whenever the extractor finds a seizure, the selection filter
    accepts the recording: an exact match is a substring match, so no
    recording with an extracted seizure is turned away by [load_raw]. *)
Theorem extracted_seizure_implies_selected
    (X : External) (file : string) (raw raw' : Raw)
    (intervals : list Interval) :
  value (seizure_annotations raw) = inr (raw', intervals) ->
  intervals <> [] ->
  any_seizure_marker raw = true /\
  (read_raw_edf X file = inr raw ->
   value (load_raw X file true false) = inr (Some raw)).
Proof.
  intros Hsz Hne.
  unfold seizure_annotations in Hsz. rewrite value_print_then in Hsz.
  cbn [value ret snd] in Hsz. injection Hsz as _ <-.
  assert (Hany : any_seizure_marker raw = true).
  { unfold any_seizure_marker. apply existsb_exists.
    destruct (filter is_seizure (annotations raw)) as [| a l] eqn:Hf;
      [contradiction |].
    assert (Ha : In a (filter is_seizure (annotations raw)))
      by (rewrite Hf; now left).
    apply filter_In in Ha. destruct Ha as [Ha Hd].
    exists a. split; [exact Ha |].
    apply String.eqb_eq in Hd. rewrite Hd. reflexivity. }
  split; [exact Hany |].
  intros Hread. rewrite load_raw_value, Hread, Hany. reflexivity.
Qed.

Lemma extracted_seizure_implies_selected_witness :
  any_seizure_marker raw_two_seizures = true /\
  (read_raw_edf (external_of raw_two_seizures empty_frame) "a.edf"
   = inr raw_two_seizures ->
   value (load_raw (external_of raw_two_seizures empty_frame) "a.edf" true false)
   = inr (Some raw_two_seizures)).
Proof.
  apply (extracted_seizure_implies_selected
           (external_of raw_two_seizures empty_frame) "a.edf" raw_two_seizures
           (set_annotations (filter is_seizure (annotations raw_two_seizures))
                            raw_two_seizures)
           two_seizure_intervals).
  - reflexivity.
  - discriminate.
Defined.

Lemma filter_idempotent {A} (p : A -> bool) (l : list A) :
  filter p (filter p l) = filter p l.
Proof.
  induction l as [| a l IH]; [reflexivity |].
  simpl. destruct (p a) eqn:Hp; [| exact IH].
  simpl. now rewrite Hp, IH.
Qed.

(** X7.  Running the extractor on the recording it returned changes
    nothing: every annotation left is a seizure event, the same intervals
    come back, and the annotations stay as they are. *)
Theorem seizure_annotations_idempotent (raw : Raw) :
  exists raw' intervals raw'',
    value (seizure_annotations raw) = inr (raw', intervals) /\
    Forall (fun a => description a = "AANVAL") (annotations raw') /\
    length intervals = length (annotations raw') /\
    value (seizure_annotations raw') = inr (raw'', intervals) /\
    annotations raw'' = annotations raw'.
Proof.
  exists (set_annotations (filter is_seizure (annotations raw)) raw),
         (map interval_of (filter is_seizure (annotations raw))).
  eexists. split; [reflexivity |]. split; [| split; [| split]].
  - apply Forall_forall. intros a Ha. cbn in Ha.
    apply filter_In in Ha. now apply String.eqb_eq.
  - cbn. apply length_map.
  - unfold seizure_annotations. rewrite value_print_then.
    cbn [annotations set_annotations value ret snd].
    rewrite filter_idempotent. reflexivity.
  - cbn. rewrite ?filter_idempotent. reflexivity.
Qed.

(** X8.  In any namespace, [preprocess] returns a recording and never
    raises; it leaves the channel names, the annotations and the memory
    flag as they were, only appends to the processing history, and the
    sampling rate it returns is the source rate or 256. *)
Theorem preprocess_never_raises (G : globals) (raw : Raw) :
  exists raw',
    value (preprocess G raw) = inr raw' /\
    ch_names raw' = ch_names raw /\
    annotations raw' = annotations raw /\
    fits_in_memory raw' = fits_in_memory raw /\
    (sfreq raw' = sfreq raw \/ sfreq raw' = 256%Q) /\
    exists steps, history raw' = history raw ++ steps.
Proof.
  destruct (preprocess_value G raw)
    as [raw' [Hvalue [Hnames [Hann [Hfits [Hrate Hsteps]]]]]].
  exists raw'. repeat (split; [assumption |]). exact Hsteps.
Qed.

(** ** Epoching and labeling together *)

Lemma add_count_samples (df0 : Frame Sample) :
  map sample (rows (add_count df0)) = rows df0.
Proof.
  unfold add_count. cbn [rows]. rewrite map_map. cbn [sample].
  generalize 0 as i. induction (rows df0) as [| s l IH]; intros i;
    [reflexivity |].
  cbn [length seq combine map snd]. now rewrite IH.
Qed.

Lemma add_count_nth (df0 : Frame Sample) (i : nat) :
  nth_error (rows (add_count df0)) i
  = option_map (fun s => mkTimed s (Qmake (Z.of_nat i) 256)) (nth_error (rows df0) i).
Proof.
  unfold add_count. cbn [rows].
  assert (H : forall l a i,
             nth_error (map (fun p : nat * Sample =>
                               mkTimed (snd p) (Qmake (Z.of_nat (fst p)) 256))
                            (combine (seq a (length l)) l)) i
             = option_map (fun s => mkTimed s (Qmake (Z.of_nat (a + i)) 256))
                          (nth_error l i)).
  { induction l as [| s l IH]; intros a j.
    - destruct j; reflexivity.
    - cbn [length seq combine map]. destruct j as [| j].
      + cbn [nth_error option_map fst snd]. now rewrite Nat.add_0_r.
      + cbn [nth_error]. rewrite IH. now rewrite Nat.add_succ_r. }
  apply (H (rows df0) 0 i).
Qed.

(** The label [labeling] gives to the time [t]. *)
Lemma label_of_time (intervals : list Interval) (t : Q) :
  is_monotonic (map onset intervals) = true ->
  (if in_seizure t (asof_backward t intervals None) then 1%Z else 0%Z) = 1%Z
  <-> exists m, most_recent_interval intervals t m /\
                (onset m <= t)%Q /\ (t <= end_ m)%Q.
Proof.
  intros Hright.
  destruct (asof_backward t intervals None) as [m |] eqn:Hasof.
  - destruct (asof_backward_sound _ _ Hright _ _ Hasof) as [Hm | [Hnone _]];
      [| discriminate].
    cbn [in_seizure].
    destruct (Qle_bool (onset m) t && Qle_bool t (end_ m)) eqn:Hin.
    + split; [| reflexivity].
      intros _. exists m. apply andb_true_iff in Hin. destruct Hin as [H1 H2].
      apply Qle_bool_iff in H1. apply Qle_bool_iff in H2. now repeat split.
    + split; [discriminate |].
      intros [m' [Hm' [H1 H2]]]. exfalso.
      pose proof (asof_backward_complete _ _ _ Hright Hm' None) as Heq.
      rewrite Hasof in Heq. injection Heq as ->.
      apply Qle_bool_iff in H1. apply Qle_bool_iff in H2.
      rewrite H1, H2 in Hin. discriminate.
  - cbn [in_seizure]. split; [discriminate |].
    intros [m [Hm _]]. exfalso.
    pose proof (asof_backward_complete _ _ _ Hright Hm None) as Heq.
    congruence.
Qed.

(** X10.  The time [create_epochs] gives a sample is its position in the
    table divided by 256 ([df_epochs.index / 256]), whatever its [time]
    and [epoch] columns hold.  That column is always sorted, so whenever
    the epoching succeeds and the seizure table is non-empty and sorted
    by onset, [labeling] returns, with the same channel columns and the
    same samples in the same order; the label of the sample at position
    [i] is 0 or 1, and it is 1 exactly when [i / 256] lies in
    [[onset, end]] of the most recent interval that starts at or before
    [i / 256]. *)
Theorem labeling_accepts_created_epochs
    (X : External) (G : globals) (raw : Raw) (duration overlap : Q)
    (df0 : Frame Sample) (intervals : list Interval) :
  epochs_to_data_frame X raw duration = inr df0 ->
  intervals <> [] ->
  is_monotonic (map onset intervals) = true ->
  exists df,
    value (epochs <- create_epochs X G raw duration overlap ;;
           labeling epochs intervals) = inr df /\
    channels df = channels df0 /\
    map lsample (rows df) = rows df0 /\
    Forall (fun r => seizure r = 0%Z \/ seizure r = 1%Z) (rows df) /\
    forall i r,
      nth_error (rows df) i = Some r ->
      (seizure r = 1%Z <->
       exists m,
         most_recent_interval intervals (Qmake (Z.of_nat i) 256) m /\
         (onset m <= Qmake (Z.of_nat i) 256)%Q /\ (Qmake (Z.of_nat i) 256 <= end_ m)%Q).
Proof.
  intros Hep Hne Hsorted.
  rewrite value_bind, create_epochs_value, Hep.
  rewrite (labeling_value (add_count df0) intervals Hne
             (add_count_monotonic df0) Hsorted).
  eexists. split; [reflexivity |]. split; [reflexivity |].
  split; [| split].
  - cbn [rows]. rewrite map_map. cbn [lsample]. apply add_count_samples.
  - cbn [rows]. apply Forall_forall. intros r Hr.
    apply in_map_iff in Hr. destruct Hr as [t [<- _]]. cbn [seizure].
    destruct (in_seizure (count t) (asof_backward (count t) intervals None));
      [now right | now left].
  - intros i r. cbn [rows]. rewrite nth_error_map, add_count_nth.
    destruct (nth_error (rows df0) i) as [s |]; [| discriminate].
    cbn [option_map]. intros H. injection H as <-. cbn [seizure count].
    now apply label_of_time.
Qed.

Lemma labeling_accepts_created_epochs_witness :
  exists df,
    value (epochs <- create_epochs
                       (external_of raw_brief_seizure frame_four_samples)
                       notebook_globals raw_brief_seizure 10 0 ;;
           labeling epochs one_short_seizure) = inr df /\
    channels df = channels frame_four_samples /\
    map lsample (rows df) = rows frame_four_samples /\
    Forall (fun r => seizure r = 0%Z \/ seizure r = 1%Z) (rows df) /\
    forall i r,
      nth_error (rows df) i = Some r ->
      (seizure r = 1%Z <->
       exists m,
         most_recent_interval one_short_seizure (Qmake (Z.of_nat i) 256) m /\
         (onset m <= Qmake (Z.of_nat i) 256)%Q /\ (Qmake (Z.of_nat i) 256 <= end_ m)%Q).
Proof.
  apply (labeling_accepts_created_epochs
           (external_of raw_brief_seizure frame_four_samples) notebook_globals
           raw_brief_seizure 10 0 frame_four_samples one_short_seizure).
  - reflexivity.
  - discriminate.
  - reflexivity.
Defined.

(** The count column of a table that is not sampled at 256 Hz: the first
    sample of the second epoch of [frame_two_epochs], at time 0 of epoch
    1, gets the time 5/256 s. *)
Example add_count_is_position_over_256 :
  map count (rows (add_count frame_two_epochs))
  = map (fun i => Qmake (Z.of_nat i) 256) (seq 0 10) /\
  option_map (fun r => (time (sample r), epoch (sample r), count r))
             (nth_error (rows (add_count frame_two_epochs)) 5)
  = Some (Qmake 0 256, 1%Z, Qmake 5 256).
Proof. split; reflexivity. Qed.

(** Created epochs and one seizure from 1/256 s to 2/256 s: the samples
    at positions 1 and 2 are labelled 1. *)
Example labeling_created_epochs :
  exists df,
    value (epochs <- create_epochs
                       (external_of raw_brief_seizure frame_four_samples)
                       notebook_globals raw_brief_seizure 10 0 ;;
           labeling epochs one_short_seizure) = inr df /\
    map seizure (rows df) = [0; 1; 1; 0]%Z.
Proof. eexists. split; reflexivity. Qed.

Lemma separated_later_onsets (a : Interval) (l : list Interval) :
  well_formed (a :: l) -> separated (a :: l) ->
  Forall (fun b => (end_ a < onset b)%Q) l.
Proof.
  revert a. induction l as [| b l IH]; intros a Hwf Hsep; [constructor |].
  destruct Hsep as [Hab Hsep].
  inversion Hwf as [| ? ? _ Hwf']; subst.
  constructor; [exact Hab |].
  specialize (IH b Hwf' Hsep).
  inversion Hwf' as [| ? ? Hb _]; subst.
  eapply Forall_impl; [| exact IH]. intros c Hc. cbn beta in *.
  eapply Qlt_trans; [| exact Hc].
  eapply Qlt_le_trans; [exact Hab | exact Hb].
Qed.

Lemma separated_suffix (before rest : list Interval) :
  separated (before ++ rest) -> separated rest.
Proof.
  induction before as [| a before IH]; intros H; [exact H |].
  apply IH. destruct (before ++ rest) eqn:E.
  - exact I.
  - cbn [app] in H. rewrite E in H. destruct H as [_ H]. exact H.
Qed.

Lemma separated_sorted (l : list Interval) :
  well_formed l -> separated l -> is_monotonic (map onset l) = true.
Proof.
  induction l as [| a l IH]; intros Hwf Hsep; [reflexivity |].
  pose proof (separated_later_onsets a l Hwf Hsep) as Hlater.
  inversion Hwf as [| ? ? Ha Hwf']; subst.
  change (map onset (a :: l)) with (onset a :: map onset l).
  apply is_monotonic_intro.
  - apply Forall_forall. intros y Hy. apply in_map_iff in Hy.
    destruct Hy as [b [<- Hb]]. rewrite Forall_forall in Hlater.
    specialize (Hlater b Hb). apply Qlt_le_weak.
    eapply Qle_lt_trans; eassumption.
  - apply IH; [exact Hwf' |]. now apply (separated_suffix [a] l).
Qed.

(** X11.  When the seizure intervals do not overlap (each ends before the
    next starts), [labeling] marks a sample 1 exactly when its time lies
    in one of the intervals, bounds included: the as-of match loses no
    seizure sample. *)
Theorem labeling_marks_samples_inside_any_interval
    (df_epochs : Frame Timed) (intervals : list Interval) :
  intervals <> [] ->
  well_formed intervals ->
  separated intervals ->
  is_monotonic (map count (rows df_epochs)) = true ->
  exists df,
    value (labeling df_epochs intervals) = inr df /\
    Forall2
      (fun (r : Timed) (r' : Labeled) =>
         seizure r' = 1%Z <->
         exists iv, In iv intervals /\
                    (onset iv <= count r)%Q /\ (count r <= end_ iv)%Q)
      (rows df_epochs) (rows df).
Proof.
  intros Hne Hwf Hsep Hleft.
  pose proof (separated_sorted intervals Hwf Hsep) as Hright.
  rewrite (labeling_value df_epochs intervals Hne Hleft Hright).
  eexists. split; [reflexivity |]. cbn [rows].
  clear Hleft. induction (rows df_epochs) as [| r l IH]; [constructor |].
  cbn [map]. constructor; [| exact IH]. cbn [seizure].
  split.
  - destruct (asof_backward (count r) intervals None) as [m |] eqn:Hasof;
      cbn [in_seizure]; [| discriminate].
    destruct (Qle_bool (onset m) (count r) && Qle_bool (count r) (end_ m))
      eqn:Hin; [| discriminate].
    intros _. exists m.
    apply andb_true_iff in Hin. destruct Hin as [H1 H2].
    apply Qle_bool_iff in H1. apply Qle_bool_iff in H2.
    destruct (asof_backward_sound _ _ Hright _ _ Hasof)
      as [[before [after [-> _]]] | [Hnone _]]; [| discriminate].
    split; [| now split]. apply in_or_app. right. now left.
  - intros [iv [Hiv [H1 H2]]].
    apply in_split in Hiv. destruct Hiv as [before [after Heq]].
    assert (Hrecent : most_recent_interval intervals (count r) iv).
    { exists before, after. split; [exact Heq |]. split; [exact H1 |].
      rewrite Heq in Hwf, Hsep.
      apply separated_suffix in Hsep.
      unfold well_formed in Hwf. apply Forall_app in Hwf.
      destruct Hwf as [_ Hwf].
      pose proof (separated_later_onsets iv after Hwf Hsep) as Hlater.
      eapply Forall_impl; [| exact Hlater]. intros b Hb Hle.
      cbn beta in Hb.
      apply (Qlt_irrefl (count r)).
      eapply Qle_lt_trans; [exact H2 |].
      eapply Qlt_le_trans; [exact Hb | exact Hle]. }
    rewrite (asof_backward_complete _ _ _ Hright Hrecent None).
    cbn [in_seizure].
    apply Qle_bool_iff in H1. apply Qle_bool_iff in H2.
    now rewrite H1, H2.
Qed.

Lemma labeling_marks_samples_inside_any_interval_witness :
  exists df,
    value (labeling (add_count frame_four_samples) two_brief_intervals)
    = inr df /\
    Forall2
      (fun (r : Timed) (r' : Labeled) =>
         seizure r' = 1%Z <->
         exists iv, In iv two_brief_intervals /\
                    (onset iv <= count r)%Q /\ (count r <= end_ iv)%Q)
      (rows (add_count frame_four_samples)) (rows df).
Proof.
  apply (labeling_marks_samples_inside_any_interval
           (add_count frame_four_samples) two_brief_intervals).
  - discriminate.
  - repeat constructor; discriminate.
  - split; [reflexivity | exact I].
  - reflexivity.
Defined.

(** Four samples at 0, 1/256, 2/256 and 3/256 s against the intervals
    [1/256, 1/256] and [3/256, 4/256]: the second sample lies in the
    first interval, the fourth in the second, the third between them. *)
Example labeling_two_brief_intervals :
  exists df,
    value (labeling (add_count frame_four_samples) two_brief_intervals)
    = inr df /\
    map seizure (rows df) = [0; 1; 0; 1]%Z.
Proof. eexists. split; reflexivity. Qed.

(** X12.  Overlap is where the as-of match loses samples: with two
    intervals, a sample after the end of the later-starting one is
    labelled 0 even when the earlier-starting interval still contains
    it. *)
Theorem later_interval_masks_the_earlier_one
    (df_epochs : Frame Timed) (a b : Interval) :
  (onset a <= onset b)%Q ->
  is_monotonic (map count (rows df_epochs)) = true ->
  exists df,
    value (labeling df_epochs [a; b]) = inr df /\
    Forall2
      (fun (r : Timed) (r' : Labeled) =>
         (onset b <= count r)%Q -> (end_ b < count r)%Q ->
         seizure r' = 0%Z)
      (rows df_epochs) (rows df).
Proof.
  intros Hab Hleft.
  assert (Hright : is_monotonic (map onset [a; b]) = true).
  { cbn. apply Qle_bool_iff in Hab. now rewrite Hab. }
  rewrite (labeling_value df_epochs [a; b] ltac:(discriminate) Hleft Hright).
  eexists. split; [reflexivity |]. cbn [rows].
  clear Hleft. induction (rows df_epochs) as [| r l IH]; [constructor |].
  cbn [map]. constructor; [| exact IH]. cbn [seizure].
  intros Hb Hend.
  assert (Ha : Qle_bool (onset a) (count r) = true).
  { apply Qle_bool_iff. eapply Qle_trans; eassumption. }
  cbn [asof_backward]. rewrite Ha.
  apply Qle_bool_iff in Hb. rewrite Hb. cbn [in_seizure].
  assert (Hout : Qle_bool (count r) (end_ b) = false).
  { apply Qle_bool_false. intros Hle. apply (Qlt_irrefl (count r)).
    eapply Qle_lt_trans; eassumption. }
  rewrite Hout, andb_false_r. reflexivity.
Qed.

Lemma later_interval_masks_the_earlier_one_witness :
  exists df,
    value (labeling (add_count frame_four_samples)
                    [long_interval; short_interval_inside]) = inr df /\
    Forall2
      (fun (r : Timed) (r' : Labeled) =>
         (onset short_interval_inside <= count r)%Q ->
         (end_ short_interval_inside < count r)%Q ->
         seizure r' = 0%Z)
      (rows (add_count frame_four_samples)) (rows df).
Proof.
  apply (later_interval_masks_the_earlier_one
           (add_count frame_four_samples) long_interval short_interval_inside).
  - discriminate.
  - reflexivity.
Defined.

(** The four samples lie in the long interval; the last two come after the
    short one and are labelled 0. *)
Example labeling_overlapping_intervals :
  exists df,
    value (labeling (add_count frame_four_samples)
                    [long_interval; short_interval_inside]) = inr df /\
    map seizure (rows df) = [1; 1; 0; 0]%Z.
Proof. eexists. split; reflexivity. Qed.

(** ** Reshaping: structure of the table *)

Lemma mapM_pure {A B} (f : A -> M B) (g : A -> B) (l : list A) :
  (forall x, In x l -> f x = ret (g x)) ->
  mapM f l = ret (map g l).
Proof.
  induction l as [| x l IH]; intros Hf; [reflexivity |].
  cbn [mapM map]. rewrite (Hf x (or_introl eq_refl)).
  cbn [bind ret]. rewrite IH by (intros y Hy; apply Hf; now right).
  reflexivity.
Qed.

Lemma mapM_fails_at {A B} (f : A -> M B) (pre : list A) (x : A)
    (post : list A) (e : exn) :
  (forall y, In y pre -> exists v, value (f y) = inr v) ->
  value (f x) = inl e ->
  value (mapM f (pre ++ x :: post)) = inl e.
Proof.
  intros Hpre Hx. induction pre as [| y pre IH].
  - cbn [app mapM]. now rewrite value_bind, Hx.
  - destruct (Hpre y (or_introl eq_refl)) as [v Hv].
    cbn [app mapM]. rewrite value_bind, Hv, value_bind, IH; [reflexivity |].
    intros z Hz. apply Hpre. now right.
Qed.

Lemma find_split {A} (p : A -> bool) (l : list A) (x : A) :
  find p l = Some x ->
  exists pre post,
    l = pre ++ x :: post /\ Forall (fun y => p y = false) pre /\ p x = true.
Proof.
  induction l as [| a l IH]; [discriminate |].
  simpl. destruct (p a) eqn:Hp.
  - intros H. injection H as <-. exists [], l. repeat split; [constructor | exact Hp].
  - intros H. destruct (IH H) as [pre [post [-> [Hpre Hx]]]].
    exists (a :: pre), post. repeat split; [now constructor | exact Hx].
Qed.

Lemma index_of_absent (c : string) (cols : list string) :
  has_column c cols = false -> index_of c cols = None.
Proof.
  unfold has_column. induction cols as [| c' cols IH]; [reflexivity |].
  cbn [existsb index_of]. destruct (String.eqb c c'); cbn [orb];
    [intros H; discriminate H |].
  intros H. now rewrite (IH H).
Qed.

Lemma channel_arrays_pure (X : External) (G : globals) (df : Frame Labeled)
    (keys : list Z) (c : string) (i : nat) :
  (keys = [] \/ bound "np" G = true) ->
  index_of c (channels df) = Some i ->
  channel_arrays X G df keys c = ret (map (channel_array X df i) keys).
Proof.
  intros Hnp Hi. unfold channel_arrays. rewrite Hi.
  destruct Hnp as [-> | Hnp]; [reflexivity |].
  apply mapM_pure. intros k _. unfold lookup_global. rewrite Hnp. reflexivity.
Qed.

Lemma build_rows_columns {C} (g : C -> Z -> list Q) (cs : list C)
    (keys labels : list Z) :
  length labels = length keys ->
  build_rows keys (map (fun c => map (g c) keys) cs) labels
  = map (fun kl => mkEpochRow (fst kl) (map (fun c => g c (fst kl)) cs) (snd kl))
        (combine keys labels).
Proof.
  revert labels. induction keys as [| k keys IH]; intros labels Hlen.
  - destruct labels; reflexivity.
  - destruct labels as [| l labels]; [discriminate |].
    cbn [build_rows combine map fst snd]. f_equal.
    + f_equal. rewrite map_map. reflexivity.
    + rewrite map_map. cbn [tl]. apply IH. now injection Hlen.
Qed.

Lemma group_keys_of_empty (df : Frame Labeled) :
  rows df = [] -> group_keys df = [].
Proof. intros H. unfold group_keys. now rewrite H. Qed.

(** The table [reshape_df] returns, in closed form. *)
Lemma reshape_df_table (X : External) (G : globals) (df : Frame Labeled) :
  (rows df = [] \/ bound "np" G = true) ->
  forallb (fun c => has_column c (channels df)) eeg_channels = true ->
  exists labels,
    Forall2 (fun k l => label_of_epoch (map seizure (group df k)) = inr l)
            (group_keys df) labels /\
    value (reshape_df X G df)
    = inr (map (fun kl =>
                  mkEpochRow (fst kl)
                    (map (fun c => channel_array X df (column_position df c)
                                                 (fst kl))
                         eeg_channels)
                    (snd kl))
               (combine (group_keys df) labels)).
Proof.
  intros Hnp Hcols.
  assert (Hnp' : group_keys df = [] \/ bound "np" G = true).
  { destruct Hnp as [H | H]; [left; now apply group_keys_of_empty | now right]. }
  assert (Hagg : mapM (channel_arrays X G df (group_keys df)) eeg_channels
                 = ret (map (fun c => map (channel_array X df (column_position df c))
                                          (group_keys df))
                            eeg_channels)).
  { apply mapM_pure. intros c Hc.
    rewrite forallb_forall in Hcols. specialize (Hcols c Hc).
    destruct (index_of_present _ _ Hcols) as [i Hi].
    unfold column_position. rewrite Hi.
    now apply channel_arrays_pure. }
  destruct (mapM_value
              (fun k => lift (label_of_epoch (map seizure (group df k))))
              (group_keys df)) as [labels [Hlabels Hrel]].
  { intros k Hk.
    destruct (label_of_epoch_smallest_mode (map seizure (group df k)))
      as [m [Hm _]].
    - intros Hnil. apply map_eq_nil in Hnil.
      now apply (group_of_key_nonempty df k).
    - exists m. exact Hm. }
  exists labels. split; [exact Hrel |].
  unfold reshape_df. rewrite Hagg. cbn [bind ret].
  set (rest := _ ;; _). 
  assert (Hrest : value rest
                  = inr (build_rows (group_keys df)
                           (map (fun c => map (channel_array X df
                                                 (column_position df c))
                                              (group_keys df))
                                eeg_channels)
                           labels)).
  { subst rest. rewrite value_bind, Hlabels, value_print_then. reflexivity. }
  destruct rest as [out r]. cbn [value snd] in *. rewrite Hrest.
  rewrite (build_rows_columns
             (fun c k => channel_array X df (column_position df c) k)).
  - reflexivity.
  - symmetry. eapply Forall2_length. exact Hrel.
Qed.

Lemma insert_sorted_strict (x : Z) (l : list Z) :
  StronglySorted Z.lt l -> ~ In x l ->
  StronglySorted Z.lt (insert_sorted x l).
Proof.
  induction 1 as [| y l Hl IH Hy]; intros Hx.
  - repeat constructor.
  - simpl. destruct (Z.leb_spec x y) as [Hxy | Hyx].
    + assert (x < y)%Z by (assert (x <> y) by (intros ->; apply Hx; now left); lia).
      constructor; [now constructor |].
      constructor; [assumption |].
      eapply Forall_impl; [| exact Hy]. intros z Hz. lia.
    + constructor.
      * apply IH. intros Hin. apply Hx. now right.
      * apply Forall_forall. intros z Hz. apply insert_sorted_In in Hz.
        destruct Hz as [-> | Hz]; [exact Hyx |].
        rewrite Forall_forall in Hy. now apply Hy.
Qed.

Lemma sort_values_strict (l : list Z) :
  NoDup l -> StronglySorted Z.lt (sort_values l).
Proof.
  induction 1 as [| x l Hx _ IH]; [constructor |].
  simpl. apply insert_sorted_strict; [exact IH |].
  now rewrite sort_values_In.
Qed.

Lemma strictly_sorted_NoDup (l : list Z) :
  StronglySorted Z.lt l -> NoDup l.
Proof.
  induction 1 as [| x l _ IH Hx]; constructor; [| exact IH].
  intros Hin. rewrite Forall_forall in Hx. specialize (Hx x Hin). lia.
Qed.

Lemma group_keys_strict (df : Frame Labeled) :
  StronglySorted Z.lt (group_keys df).
Proof. apply sort_values_strict. apply NoDup_nodup. Qed.

Lemma group_keys_In (df : Frame Labeled) (k : Z) :
  In k (group_keys df) <-> exists r, In r (rows df) /\ epoch (lsample r) = k.
Proof.
  unfold group_keys. rewrite sort_values_In, nodup_In, in_map_iff.
  split; intros [r [H1 H2]]; exists r; tauto.
Qed.

Lemma map_fst_combine {A B} (l : list A) (l' : list B) :
  length l' = length l -> map fst (combine l l') = l.
Proof.
  revert l'. induction l as [| a l IH]; intros [| b l'] H;
    try reflexivity; try discriminate.
  simpl. f_equal. apply IH. now injection H.
Qed.

Lemma list_sum_cons (a : nat) (l : list nat) :
  list_sum (a :: l) = a + list_sum l.
Proof. reflexivity. Qed.

Lemma indicator_sum (x : Z) (keys : list Z) :
  NoDup keys -> In x keys ->
  list_sum (map (fun k => if (x =? k)%Z then 1 else 0) keys) = 1.
Proof.
  induction 1 as [| k keys Hk _ IH]; intros Hx; [contradiction |].
  cbn [map]. rewrite list_sum_cons.
  destruct (Z.eqb_spec x k) as [-> | Hne].
  - assert (Hzero : list_sum (map (fun k' => if (k =? k')%Z then 1 else 0) keys) = 0).
    { clear IH Hx. induction keys as [| k' keys IH]; [reflexivity |].
      cbn [map]. rewrite list_sum_cons.
      destruct (Z.eqb_spec k k') as [-> | _].
      - exfalso. apply Hk. now left.
      - apply IH. intros H. apply Hk. now right. }
    now rewrite Hzero.
  - rewrite IH; [reflexivity |]. destruct Hx as [-> | Hx]; [congruence | exact Hx].
Qed.

Lemma group_sizes_sum (f : Labeled -> Z) (l : list Labeled) (keys : list Z) :
  NoDup keys -> (forall r, In r l -> In (f r) keys) ->
  list_sum (map (fun k => length (filter (fun r => (f r =? k)%Z) l)) keys)
  = length l.
Proof.
  intros Hnodup. induction l as [| r l IH]; intros Hcover.
  - clear. induction keys as [| k keys IHk]; [reflexivity |].
    cbn [map]. rewrite list_sum_cons, IHk. reflexivity.
  - assert (Hstep :
        list_sum (map (fun k => length (filter (fun r0 => (f r0 =? k)%Z) (r :: l))) keys)
        = list_sum (map (fun k => if (f r =? k)%Z then 1 else 0) keys)
          + list_sum (map (fun k => length (filter (fun r0 => (f r0 =? k)%Z) l)) keys)).
    { clear. induction keys as [| k keys IHk]; [reflexivity |].
      cbn [map]. rewrite !list_sum_cons, IHk. cbn [filter].
      destruct (f r =? k)%Z; cbn [length]; lia. }
    rewrite Hstep, indicator_sum, IH.
    + reflexivity.
    + intros r0 Hr0. apply Hcover. now right.
    + exact Hnodup.
    + apply Hcover. now left.
Qed.

Lemma Forall2_map_self {A B} (P : A -> B -> Prop) (f : A -> B) (l : list A) :
  (forall x, In x l -> P x (f x)) -> Forall2 P l (map f l).
Proof.
  induction l as [| x l IH]; intros H; [constructor |].
  cbn [map]. constructor; [apply H; now left |].
  apply IH. intros y Hy. apply H. now right.
Qed.

(** X13.  With [np] bound and the nineteen channel columns present,
    [reshape_df] returns one row per epoch that occurs in the table, in
    strictly ascending epoch order.  The row of an epoch carries one array
    per channel of [eeg_channels], in that order, and the array of a
    channel holds the [float32] of that channel's value for exactly the
    samples of the table whose epoch it is, in table order.  So every
    sample's values go to the row of its epoch and to no other: every
    array is as long as the epoch has samples, and the epochs' sample
    counts add up to the number of rows of the input. *)
Theorem reshape_df_partitions_the_samples
    (X : External) (G : globals) (df : Frame Labeled) :
  bound "np" G = true ->
  forallb (fun c => has_column c (channels df)) eeg_channels = true ->
  exists t,
    value (reshape_df X G df) = inr t /\
    StronglySorted Z.lt (map e_epoch t) /\
    (forall k, In k (map e_epoch t) <->
               exists r, In r (rows df) /\ epoch (lsample r) = k) /\
    Forall (fun row =>
              Forall2
                (fun c a =>
                   exists i,
                     index_of c (channels df) = Some i /\
                     a = map (fun r => float32 X (nth i (values (lsample r)) 0%Q))
                             (filter (fun r => (epoch (lsample r) =? e_epoch row)%Z)
                                     (rows df)))
                eeg_channels (arrays row)) t /\
    Forall (fun row =>
              length (arrays row) = 19 /\
              Forall (fun a => length a = length (group df (e_epoch row)))
                     (arrays row)) t /\
    list_sum (map (fun row => length (group df (e_epoch row))) t)
    = length (rows df).
Proof.
  intros Hnp Hcols.
  destruct (reshape_df_table X G df (or_intror Hnp) Hcols)
    as [labels [Hrel Hvalue]].
  eexists. split; [exact Hvalue |].
  assert (Hlen : length labels = length (group_keys df)).
  { symmetry. eapply Forall2_length. exact Hrel. }
  assert (Hepochs :
      map e_epoch
          (map (fun kl =>
                  mkEpochRow (fst kl)
                    (map (fun c => channel_array X df (column_position df c)
                                                 (fst kl)) eeg_channels)
                    (snd kl))
               (combine (group_keys df) labels))
      = group_keys df).
  { rewrite map_map. cbn [e_epoch]. now apply map_fst_combine. }
  split; [| split; [| split; [| split]]].
  - rewrite Hepochs. apply group_keys_strict.
  - intros k. rewrite Hepochs. apply group_keys_In.
  - apply Forall_forall. intros row Hrow.
    apply in_map_iff in Hrow. destruct Hrow as [[k l] [<- _]].
    cbn [arrays e_epoch fst]. apply Forall2_map_self. intros c Hc.
    rewrite forallb_forall in Hcols. specialize (Hcols c Hc).
    destruct (index_of_present _ _ Hcols) as [i Hi].
    exists i. split; [exact Hi |].
    unfold column_position. rewrite Hi. reflexivity.
  - apply Forall_forall. intros row Hrow.
    apply in_map_iff in Hrow. destruct Hrow as [[k l] [<- _]].
    cbn [arrays e_epoch fst]. split; [now rewrite length_map |].
    apply Forall_forall. intros a Ha. apply in_map_iff in Ha.
    destruct Ha as [c [<- _]]. unfold channel_array. apply length_map.
  - rewrite <- (map_map e_epoch (fun k => length (group df k))), Hepochs.
    unfold group. apply group_sizes_sum.
    + apply strictly_sorted_NoDup, group_keys_strict.
    + intros r Hr. apply group_keys_In. now exists r.
Qed.

Lemma reshape_df_partitions_the_samples_witness :
  exists t,
    value (reshape_df (external_of raw_brief_seizure frame_two_epochs)
                      globals_with_np frame_distinct_values) = inr t /\
    StronglySorted Z.lt (map e_epoch t) /\
    (forall k, In k (map e_epoch t) <->
               exists r, In r (rows frame_distinct_values) /\
                         epoch (lsample r) = k) /\
    Forall (fun row =>
              Forall2
                (fun c a =>
                   exists i,
                     index_of c (channels frame_distinct_values) = Some i /\
                     a = map (fun r =>
                                float32
                                  (external_of raw_brief_seizure frame_two_epochs)
                                  (nth i (values (lsample r)) 0%Q))
                             (filter (fun r => (epoch (lsample r) =? e_epoch row)%Z)
                                     (rows frame_distinct_values)))
                eeg_channels (arrays row)) t /\
    Forall (fun row =>
              length (arrays row) = 19 /\
              Forall (fun a => length a
                               = length (group frame_distinct_values
                                               (e_epoch row)))
                     (arrays row)) t /\
    list_sum (map (fun row => length (group frame_distinct_values
                                            (e_epoch row))) t)
    = length (rows frame_distinct_values).
Proof.
  apply (reshape_df_partitions_the_samples
           (external_of raw_brief_seizure frame_two_epochs) globals_with_np
           frame_distinct_values).
  - reflexivity.
  - reflexivity.
Defined.

(** Three samples with the values 0..18, 100..118 and 200..218, the first
    two in epoch 0: the arrays of the first and of the last channel. *)
Example reshape_df_distinct_values :
  exists t,
    value (reshape_df (external_of raw_brief_seizure frame_two_epochs)
                      globals_with_np frame_distinct_values) = inr t /\
    map (fun row => (e_epoch row, hd [] (arrays row), last (arrays row) []))
        t
    = [ (0%Z, [0; 100], [18; 118]); (1%Z, [200], [218]) ]%Q.
Proof. eexists. split; reflexivity. Qed.

(** ** Reshaping: a missing channel column *)

Lemma reshape_df_missing_channel (X : External) (G : globals)
    (df : Frame Labeled) (c : string) :
  bound "np" G = true ->
  first_missing_channel (channels df) = Some c ->
  value (reshape_df X G df) = inl (KeyError ("Column not found: " +s+ c)).
Proof.
  intros Hnp Hfirst. unfold first_missing_channel in Hfirst.
  apply find_split in Hfirst.
  destruct Hfirst as [pre [post [Hsplit [Hpre Hc]]]].
  unfold reshape_df. rewrite value_bind, Hsplit.
  rewrite (mapM_fails_at _ pre c post (KeyError ("Column not found: " +s+ c))).
  - reflexivity.
  - intros y Hy. apply channel_arrays_ok; [exact Hnp |].
    rewrite Forall_forall in Hpre. specialize (Hpre y Hy).
    now apply negb_false_iff in Hpre.
  - unfold channel_arrays. apply negb_true_iff in Hc.
    now rewrite (index_of_absent _ _ Hc).
Qed.

(** X14.  With [np] bound, [reshape_df] raises [KeyError] naming the
    first channel of the canonical list that is not a column of the
    table, and returns a table when none is missing: a table without Pz
    is refused, not completed. *)
Theorem reshape_df_requires_every_channel
    (X : External) (G : globals) (df : Frame Labeled) :
  bound "np" G = true ->
  match first_missing_channel (channels df) with
  | Some c =>
      value (reshape_df X G df) = inl (KeyError ("Column not found: " +s+ c))
  | None => exists t, value (reshape_df X G df) = inr t
  end.
Proof.
  intros Hnp.
  destruct (first_missing_channel (channels df)) as [c |] eqn:Hfirst.
  - now apply reshape_df_missing_channel.
  - destruct (reshape_df_rows X G df Hnp) as [t [Ht _]]; [| now exists t].
    apply forallb_forall. intros c Hc.
    unfold first_missing_channel in Hfirst.
    pose proof (find_none _ _ Hfirst c Hc) as H.
    now apply negb_false_iff in H.
Qed.

Lemma reshape_df_requires_every_channel_witness :
  match first_missing_channel (channels frame_labeled_without_Pz) with
  | Some c =>
      value (reshape_df (external_of raw_brief_seizure frame_two_epochs)
                        globals_with_np frame_labeled_without_Pz)
      = inl (KeyError ("Column not found: " +s+ c))
  | None =>
      exists t,
        value (reshape_df (external_of raw_brief_seizure frame_two_epochs)
                          globals_with_np frame_labeled_without_Pz) = inr t
  end.
Proof.
  apply (reshape_df_requires_every_channel
           (external_of raw_brief_seizure frame_two_epochs) globals_with_np
           frame_labeled_without_Pz).
  reflexivity.
Defined.

(** The table without Pz is refused for Pz. *)
Example reshape_df_without_Pz :
  value (reshape_df (external_of raw_brief_seizure frame_two_epochs)
                    globals_with_np frame_labeled_without_Pz)
  = inl (KeyError "Column not found: Pz").
Proof. reflexivity. Qed.

(** X15.  With [np] bound, a recording whose samples lack a channel of
    the canonical list (Pz, say) produces no output: [create_epochs]
    leaves the column missing, [preprocessing] raises the [KeyError] of
    [reshape_df] for it, and the driver iteration writes nothing. *)
Theorem recording_missing_a_channel_is_dropped
    (X : External) (C : Config) (G : globals) (index total : nat)
    (file : string) (raw : Raw) (df0 : Frame Sample) (c : string) :
  bound "np" G = true ->
  read_raw_edf X (path_join (data_path C) file) = inr raw ->
  (forall r duration, epochs_to_data_frame X r duration = inr df0) ->
  first_missing_channel (channels df0) = Some c ->
  filter is_seizure (annotations raw) <> [] ->
  is_monotonic (map a_onset (annotations raw)) = true ->
  (forall raw', annotations raw' = annotations raw ->
     value (preprocessing X G (Some raw'))
     = inl (KeyError ("Column not found: " +s+ c))) /\
  feather_files (output (driver_iteration X C G index total file)) = [].
Proof.
  intros Hnp Hread Hep Hfirst Hne Hsorted.
  assert (Hpre : forall raw', annotations raw' = annotations raw ->
             value (preprocessing X G (Some raw'))
             = inl (KeyError ("Column not found: " +s+ c))).
  { intros raw' Hann.
    destruct (preprocessing_value X G raw') as [raw1 [_ [_ ->]]].
    rewrite Hep, Hann.
    rewrite labeling_value.
    - rewrite reshape_df_missing_channel with (c := c);
        [reflexivity | exact Hnp | exact Hfirst].
    - intros Hnil. apply map_eq_nil in Hnil. contradiction.
    - apply add_count_monotonic.
    - rewrite map_map.
      change (fun x => onset (interval_of x)) with a_onset.
      now apply is_monotonic_filter. }
  split; [exact Hpre |].
  destruct (driver_iteration_files X C G index total file) as [subject ->].
  rewrite value_bind.
  destruct (loading_value X (data_path C) file true) as [r [-> Hr]].
  destruct r as [raw' |]; [| reflexivity].
  destruct (Hr raw' eq_refl) as [raw0 [Hread0 Hann]].
  rewrite Hread in Hread0. injection Hread0 as <-.
  now rewrite (Hpre raw' Hann).
Qed.

Lemma recording_missing_a_channel_is_dropped_witness :
  (forall raw', annotations raw' = annotations raw_one_seizure ->
     value (preprocessing
              (external_of raw_one_seizure frame_two_epochs_without_Pz)
              globals_with_np (Some raw'))
     = inl (KeyError ("Column not found: " +s+ "Pz"))) /\
  feather_files
    (output (driver_iteration
               (external_of raw_one_seizure frame_two_epochs_without_Pz)
               config_example globals_with_np 1 1 "a.edf"))
  = [].
Proof.
  apply (recording_missing_a_channel_is_dropped
           (external_of raw_one_seizure frame_two_epochs_without_Pz)
           config_example globals_with_np 1 1 "a.edf" raw_one_seizure
           frame_two_epochs_without_Pz "Pz").
  - reflexivity.
  - reflexivity.
  - reflexivity.
  - reflexivity.
  - discriminate.
  - reflexivity.
Defined.

(** X16.  Under the notebook's own namespace [reshape_df] returns only on
    a table without rows, for which it returns the empty table; on every
    table with a row it raises. *)
Theorem reshape_df_notebook_returns_only_on_empty
    (X : External) (df : Frame Labeled) :
  forallb (fun c => has_column c (channels df)) eeg_channels = true ->
  ((exists t, value (reshape_df X notebook_globals df) = inr t) <->
   rows df = []) /\
  (rows df = [] -> value (reshape_df X notebook_globals df) = inr []).
Proof.
  intros Hcols.
  assert (Hempty : rows df = [] ->
                   value (reshape_df X notebook_globals df) = inr []).
  { intros Hnil.
    destruct (reshape_df_table X notebook_globals df (or_introl Hnil) Hcols)
      as [labels [_ ->]].
    now rewrite (group_keys_of_empty df Hnil). }
  split; [| exact Hempty]. split.
  - intros [t Ht]. destruct (rows df) as [| r l] eqn:Hrows; [reflexivity |].
    rewrite reshape_df_notebook_raises in Ht; [discriminate |].
    rewrite Hrows. discriminate.
  - intros Hnil. exists []. now apply Hempty.
Qed.

Lemma reshape_df_notebook_returns_only_on_empty_witness :
  ((exists t,
      value (reshape_df (external_of raw_brief_seizure frame_two_epochs)
                        notebook_globals (label_all_zero empty_frame)) = inr t) <->
   rows (label_all_zero empty_frame) = []) /\
  (rows (label_all_zero empty_frame) = [] ->
   value (reshape_df (external_of raw_brief_seizure frame_two_epochs)
                     notebook_globals (label_all_zero empty_frame)) = inr []).
Proof.
  apply (reshape_df_notebook_returns_only_on_empty
           (external_of raw_brief_seizure frame_two_epochs)
           (label_all_zero empty_frame)).
  reflexivity.
Defined.

(** ** Class Balancer: errors, duplicates, balanced input *)

(** X17.  [epochs_seizure_based] raises [ValueError] exactly when the
    table has fewer label-0 rows than label-1 rows, and returns a table
    in every other case: it never pads and never samples with
    replacement. *)
Theorem epochs_seizure_based_raises_iff_too_few (X : External) (df : EpochTable) :
  ((exists msg, value (epochs_seizure_based X df) = inl (ValueError msg)) <->
   count_label 0 df < count_label 1 df) /\
  ((exists t, value (epochs_seizure_based X df) = inr t) <->
   count_label 1 df <= count_label 0 df).
Proof.
  unfold epochs_seizure_based.
  rewrite value_print_then, value_bind, value_lift.
  fold (count_label 1 df). unfold sample_rows. fold (count_label 0 df).
  destruct (Nat.leb_spec (count_label 1 df) (count_label 0 df)) as [Hle | Hlt].
  - rewrite value_print_then, value_print_then. cbn [value ret snd].
    split; split.
    + intros [msg H]. discriminate.
    + lia.
    + intros _. exact Hle.
    + intros _. eexists. reflexivity.
  - split; split.
    + intros _. exact Hlt.
    + intros _. eexists. reflexivity.
    + intros [t H]. discriminate.
    + lia.
Qed.

Lemma take_NoDup {A} (positions : list nat) (l : list A) :
  NoDup l -> NoDup positions -> NoDup (take positions l).
Proof.
  intros Hl. induction 1 as [| i positions Hi _ IH]; [constructor |].
  unfold take in *. cbn [flat_map].
  destruct (nth_error l i) as [x |] eqn:Hnth; [| exact IH].
  cbn [app]. constructor; [| exact IH].
  intros Hin. apply in_flat_map in Hin. destruct Hin as [j [Hj Hx]].
  destruct (nth_error l j) as [y |] eqn:Hnj; [| contradiction].
  destruct Hx as [-> | []].
  apply Hi. replace i with j; [exact Hj |]. symmetry.
  apply (proj1 (NoDup_nth_error l) Hl).
  - apply nth_error_Some. congruence.
  - congruence.
Qed.

Section BalancerMore.

Variable X : External.
Hypothesis sampling_without_replacement : choice_ok (choice X).

(** X18.  On a table of distinct rows with enough label-0 rows, the
    balanced table keeps every label-1 row of the input, holds only rows
    of the input, and holds no row twice. *)
Theorem epochs_seizure_based_keeps_seizures_without_duplicates
    (df : EpochTable) :
  NoDup df ->
  count_label 1 df <= count_label 0 df ->
  exists t,
    value (epochs_seizure_based X df) = inr t /\
    NoDup t /\
    incl t df /\
    (forall r, In r df -> e_seizure r = 1%Z -> In r t) /\
    length t = 2 * count_label 1 df.
Proof.
  intros Hnodup Henough.
  destruct (epochs_seizure_based_value X sampling_without_replacement df Henough)
    as [positions [Hvalue [Hpos Hlen]]].
  eexists. split; [exact Hvalue |]. split; [| split; [| split]].
  - apply NoDup_app.
    + now apply NoDup_filter.
    + apply take_NoDup; [now apply NoDup_filter | exact Hpos].
    + intros r H1 H0. apply take_incl in H0.
      apply filter_In in H1. apply filter_In in H0.
      destruct H1 as [_ H1]. destruct H0 as [_ H0].
      unfold is_label in *. apply Z.eqb_eq in H1. apply Z.eqb_eq in H0.
      congruence.
  - intros r Hr. apply in_app_or in Hr. destruct Hr as [Hr | Hr].
    + apply filter_In in Hr. tauto.
    + apply take_incl in Hr. apply filter_In in Hr. tauto.
  - intros r Hr Hlabel. apply in_or_app. left. apply filter_In.
    split; [exact Hr |]. unfold is_label. now apply Z.eqb_eq.
  - rewrite length_app, Hlen. unfold count_label. lia.
Qed.

Lemma take_all {A} (l1 l2 : list A) :
  take (seq (length l1) (length l2)) (l1 ++ l2) = l2.
Proof.
  revert l1. induction l2 as [| x l2 IH]; intros l1; [reflexivity |].
  cbn [length seq]. unfold take in *. cbn [flat_map].
  rewrite nth_error_app2 by lia. rewrite Nat.sub_diag. cbn [nth_error app].
  f_equal. specialize (IH (l1 ++ [x])).
  rewrite length_app, <- app_assoc in IH. cbn [length app] in IH.
  rewrite Nat.add_1_r in IH. exact IH.
Qed.

Lemma take_permutation {A} (positions : list nat) (l : list A) :
  NoDup positions -> length positions = length l ->
  Forall (fun i => i < length l) positions ->
  Permutation (take positions l) l.
Proof.
  intros Hnodup Hlen Hbound.
  assert (Hperm : Permutation positions (seq 0 (length l))).
  { apply NoDup_Permutation_bis; [exact Hnodup | |].
    - rewrite length_seq. lia.
    - intros i Hi. apply in_seq. rewrite Forall_forall in Hbound.
      specialize (Hbound i Hi). lia. }
  unfold take at 1. rewrite (Permutation_flat_map _ Hperm).
  fold (take (seq 0 (length l)) l).
  pose proof (take_all [] l) as H. cbn [length app] in H. now rewrite H.
Qed.

Lemma binary_table_split (df : EpochTable) :
  Forall (fun r => e_seizure r = 0%Z \/ e_seizure r = 1%Z) df ->
  Permutation (filter (is_label 1) df ++ filter (is_label 0) df) df.
Proof.
  induction 1 as [| r df Hr _ IH]; [constructor |].
  cbn [filter].
  assert (H1 : is_label 1 r = (e_seizure r =? 1)%Z) by reflexivity.
  assert (H0 : is_label 0 r = (e_seizure r =? 0)%Z) by reflexivity.
  rewrite H1, H0.
  destruct Hr as [Hr | Hr]; rewrite Hr; cbn [Z.eqb Pos.eqb].
  - apply Permutation_sym, Permutation_cons_app, Permutation_sym, IH.
  - cbn [app]. now constructor.
Qed.

(** X19.  On a table of 0/1 labels that is already balanced, the balancer
    only reorders: the result holds the same rows, seizure epochs
    first. *)
Theorem epochs_seizure_based_reorders_a_balanced_table (df : EpochTable) :
  Forall (fun r => e_seizure r = 0%Z \/ e_seizure r = 1%Z) df ->
  count_label 1 df = count_label 0 df ->
  exists t,
    value (epochs_seizure_based X df) = inr t /\
    Permutation t df /\
    firstn (count_label 1 df) t = filter (is_label 1) df.
Proof.
  intros Hbin Hbal.
  unfold epochs_seizure_based.
  rewrite value_print_then, value_bind, value_lift.
  destruct (sample_rows_spec X sampling_without_replacement
              (length (filter (is_label 1) df)) (filter (is_label 0) df))
    as [positions [Hsample [Hnodup [Hbound [Hplen Hlen]]]]].
  { fold (count_label 1 df). fold (count_label 0 df). lia. }
  rewrite Hsample, value_print_then, value_print_then. cbn [value ret snd].
  eexists. split; [reflexivity |]. split.
  - etransitivity; [| apply binary_table_split; exact Hbin].
    apply Permutation_app_head. apply take_permutation; try assumption.
    rewrite Hplen. exact Hbal.
  - unfold count_label. rewrite firstn_app, Nat.sub_diag, firstn_all.
    cbn [firstn]. apply app_nil_r.
Qed.

End BalancerMore.

Lemma epochs_seizure_based_keeps_seizures_without_duplicates_witness :
  exists t,
    value (epochs_seizure_based (external_of raw_two_seizures empty_frame)
                                table_one_seizure_epoch) = inr t /\
    NoDup t /\
    incl t table_one_seizure_epoch /\
    (forall r, In r table_one_seizure_epoch -> e_seizure r = 1%Z -> In r t) /\
    length t = 2 * count_label 1 table_one_seizure_epoch.
Proof.
  apply (epochs_seizure_based_keeps_seizures_without_duplicates
           (external_of raw_two_seizures empty_frame) first_positions_ok
           table_one_seizure_epoch).
  - repeat (constructor; [simpl; intuition discriminate |]). constructor.
  - vm_compute. lia.
Defined.

Lemma epochs_seizure_based_reorders_a_balanced_table_witness :
  exists t,
    value (epochs_seizure_based (external_of raw_two_seizures empty_frame)
                                table_balanced) = inr t /\
    Permutation t table_balanced /\
    firstn (count_label 1 table_balanced) t = filter (is_label 1) table_balanced.
Proof.
  apply (epochs_seizure_based_reorders_a_balanced_table
           (external_of raw_two_seizures empty_frame) first_positions_ok
           table_balanced).
  - repeat (apply Forall_cons;
            [first [left; reflexivity | right; reflexivity] |]).
    apply Forall_nil.
  - reflexivity.
Defined.

(** On more seizure epochs than non-seizure epochs the balancer raises. *)
Example epochs_seizure_based_mostly_seizure :
  value (epochs_seizure_based (external_of raw_two_seizures empty_frame)
                              table_mostly_seizure)
  = inl (ValueError
           "Cannot take a larger sample than population when 'replace=False'").
Proof. reflexivity. Qed.

(** X20.  With [np] bound and the channel columns present, the
    large-file cell raises [ValueError] when [N] exceeds the number of
    epochs of its table: nothing is emitted for a recording with more
    seizure intervals than interictal epochs. *)
Theorem large_file_table_raises_on_too_few_epochs
    (X : External) (G : globals) (df : Frame Sample) (N : nat) :
  bound "np" G = true ->
  forallb (fun c => has_column c (channels df)) eeg_channels = true ->
  length (group_keys (label_all_zero df)) < N ->
  (exists msg, value (large_file_table X G df N) = inl (ValueError msg)) /\
  forall C file,
    feather_files (output (large_file_export X C G file df N)) = [].
Proof.
  intros Hnp Hcols HN.
  destruct (reshape_df_rows X G (label_all_zero df) Hnp Hcols) as [t0 [Ht0 Hrows]].
  assert (Hlen0 : length t0 = length (group_keys (label_all_zero df))).
  { symmetry. eapply Forall2_length. exact Hrows. }
  assert (Hvalue : value (large_file_table X G df N)
                   = inl (ValueError
      "Cannot take a larger sample than population when 'replace=False'")).
  { unfold large_file_table.
    rewrite value_print_then, value_bind, Ht0, value_lift.
    unfold sample_rows. destruct (Nat.leb_spec N (length t0)); [lia |].
    reflexivity. }
  split; [eexists; exact Hvalue |].
  intros C file. unfold large_file_export.
  assert (Hq : writes_nothing (large_file_table X G df N)).
  { unfold large_file_table. apply writes_nothing_bind; [reflexivity |].
    intros _. apply writes_nothing_bind; [apply reshape_df_writes_nothing |].
    intros t. reflexivity. }
  rewrite output_bind, Hvalue. exact Hq.
Qed.

Lemma large_file_table_raises_on_too_few_epochs_witness :
  (exists msg,
     value (large_file_table (external_of raw_brief_seizure frame_two_epochs)
                             globals_with_np frame_two_epochs 3)
     = inl (ValueError msg)) /\
  forall C file,
    feather_files
      (output (large_file_export
                 (external_of raw_brief_seizure frame_two_epochs) C
                 globals_with_np file frame_two_epochs 3)) = [].
Proof.
  apply (large_file_table_raises_on_too_few_epochs
           (external_of raw_brief_seizure frame_two_epochs) globals_with_np
           frame_two_epochs 3).
  - reflexivity.
  - reflexivity.
  - vm_compute. lia.
Defined.

(** ** File names: the export, the subject identifier, the missing-file check *)

Lemma string_length_app (s1 s2 : string) :
  String.length (s1 +s+ s2) = String.length s1 + String.length s2.
Proof. induction s1 as [| c s1 IH]; simpl; [reflexivity | now rewrite IH]. Qed.

Lemma string_app_empty (s : string) : s +s+ "" = s.
Proof. induction s as [| c s IH]; simpl; [reflexivity | now rewrite IH]. Qed.

Lemma string_app_assoc (s1 s2 s3 : string) :
  (s1 +s+ s2) +s+ s3 = s1 +s+ (s2 +s+ s3).
Proof. induction s1 as [| c s1 IH]; simpl; [reflexivity | now rewrite IH]. Qed.

Lemma substring_whole (s : string) :
  String.substring 0 (String.length s) s = s.
Proof. induction s as [| c s IH]; simpl; [reflexivity | now rewrite IH]. Qed.

Lemma substring_app_right (s1 s2 : string) (n : nat) :
  String.substring (String.length s1) n (s1 +s+ s2) = String.substring 0 n s2.
Proof.
  induction s1 as [| c s1 IH]; simpl; [reflexivity | exact IH].
Qed.

Lemma get_app_left (s1 s2 : string) (i : nat) (c : ascii) :
  String.get i s1 = Some c -> String.get i (s1 +s+ s2) = Some c.
Proof.
  revert i. induction s1 as [| c1 s1 IH]; intros i H; simpl in *.
  - discriminate.
  - destruct i; [exact H | now apply IH].
Qed.

Lemma get_Some_bound (s : string) (i : nat) (c : ascii) :
  String.get i s = Some c -> i < String.length s.
Proof.
  revert i. induction s as [| c1 s IH]; intros i H; simpl in *.
  - discriminate.
  - destruct i; [lia |]. apply IH in H. lia.
Qed.

Lemma rfind_from_absent (c : ascii) (s : string) :
  has_char c s = false ->
  forall i acc, rfind_from c s i acc = acc.
Proof.
  induction s as [| c' s IH]; intros H i acc; simpl in *; [reflexivity |].
  apply orb_false_iff in H. destruct H as [Hc Hs].
  rewrite Hc. now apply IH.
Qed.

Lemma only_dots_false (s : string) :
  only_dots s = false ->
  exists i c, String.get i s = Some c /\ Ascii.eqb c "." = false.
Proof.
  induction s as [| c s IH]; intros H; simpl in H; [discriminate |].
  destruct (Ascii.eqb c ".") eqn:Hc.
  - destruct (IH H) as [i [c' [Hi Hc']]]. exists (S i), c'. now split.
  - exists 0, c. now split.
Qed.

Lemma only_dots_underscore (s t : string) :
  only_dots (s +s+ String "_" t) = false.
Proof.
  induction s as [| c s IH]; [reflexivity |].
  change (only_dots (String c s +s+ String "_" t))
    with (Ascii.eqb c "." && only_dots (s +s+ String "_" t)).
  rewrite IH. apply andb_false_r.
Qed.

(** [os.path.splitext] of a name that ends in [.edf]. *)
Lemma splitext_edf (stem : string) :
  has_char "/" stem = false ->
  only_dots stem = false ->
  splitext (stem +s+ ".edf") = (stem, ".edf").
Proof.
  intros Hslash Hdots.
  unfold splitext, rfind.
  rewrite !rfind_from_app. cbn [rfind_from Ascii.eqb Bool.eqb String.length].
  simpl Nat.add.
  rewrite (rfind_from_absent "/" stem Hslash).
  destruct (only_dots_false stem Hdots) as [i [c [Hi Hc]]].
  pose proof (get_Some_bound _ _ _ Hi) as Hbound.
  assert (Hex : existsb
                  (fun i => match String.get i (stem +s+ ".edf") with
                            | Some c => negb (Ascii.eqb c ".")
                            | None => false
                            end)
                  (seq 0 (String.length stem - 0)) = true).
  { apply existsb_exists. exists i. split.
    - apply in_seq. lia.
    - rewrite (get_app_left _ _ _ _ Hi), Hc. reflexivity. }
  rewrite Hex. f_equal.
  - replace (String.length stem) with (String.length stem + 0) at 1 by lia.
    rewrite substring_app_left. cbn [String.substring]. apply string_app_empty.
  - rewrite string_length_app. cbn [String.length].
    replace (String.length stem + 4 - String.length stem) with 4 by lia.
    rewrite substring_app_right. reflexivity.
Qed.

(** [file[:-4]] of a name that ends in a four-character extension. *)
Lemma drop_last4_extension (stem : string) (c1 c2 c3 c4 : ascii) :
  drop_last4 (stem +s+ String c1 (String c2 (String c3 (String c4 ""))))
  = stem.
Proof.
  unfold drop_last4. rewrite string_length_app. cbn [String.length].
  replace (String.length stem + 4 - 4) with (String.length stem + 0) by lia.
  rewrite substring_app_left. cbn [String.substring]. apply string_app_empty.
Qed.

Lemma split_on_app (sep : ascii) (s1 s2 : string) :
  split_on sep (s1 +s+ String sep s2) = split_on sep s1 ++ split_on sep s2.
Proof.
  induction s1 as [| c s1 IH]; simpl.
  - now rewrite Ascii.eqb_refl.
  - destruct (Ascii.eqb c sep); [now rewrite IH |].
    rewrite IH. pose proof (split_on_nonempty sep s1) as Hne.
    destruct (split_on sep s1) as [| h t]; [simpl in Hne; lia | reflexivity].
Qed.

Lemma split_on_absent (sep : ascii) (s : string) :
  has_char sep s = false -> split_on sep s = [s].
Proof.
  induction s as [| c s IH]; intros H; simpl in *; [reflexivity |].
  apply orb_false_iff in H. destruct H as [Hc Hs].
  rewrite Hc, (IH Hs). reflexivity.
Qed.

Lemma concat_cons (sep x y : string) (l : list string) :
  String.concat sep (x :: y :: l) = x +s+ sep +s+ String.concat sep (y :: l).
Proof. reflexivity. Qed.

(** Joining what [split] returns gives the string back. *)
Lemma concat_split_on (sep : ascii) (s : string) :
  String.concat (String sep "") (split_on sep s) = s.
Proof.
  induction s as [| c s IH]; [reflexivity |].
  pose proof (split_on_nonempty sep s) as Hne.
  cbn [split_on]. destruct (Ascii.eqb_spec c sep) as [-> | Hc].
  - destruct (split_on sep s) as [| h t]; [simpl in Hne; lia |].
    rewrite concat_cons, IH. reflexivity.
  - destruct (split_on sep s) as [| h t]; [simpl in Hne; lia |].
    destruct t as [| h' t].
    + cbn [String.concat] in *. now rewrite IH.
    + rewrite concat_cons. rewrite concat_cons in IH.
      rewrite <- IH at 1. reflexivity.
Qed.

Lemma last_nth_error {A} (l : list A) (d : A) :
  l <> [] -> nth_error l (length l - 1) = Some (last l d).
Proof.
  induction l as [| x l IH]; intros Hne; [congruence |].
  destruct l as [| y l]; [reflexivity |].
  replace (length (x :: y :: l) - 1) with (S (length (y :: l) - 1))
    by (simpl; lia).
  cbn [nth_error]. rewrite IH by discriminate. reflexivity.
Qed.

(** The subject identifier of the name exported for [a_b_<rest>]. *)
Lemma extract_subject_id_of_export (a b rest : string) :
  has_char "_" a = false ->
  has_char "_" b = false ->
  extract_subject_id (a +s+ "_" +s+ b +s+ "_" +s+ rest +s+ "_epoched.feather")
  = inr (if contains "epoched" (last (split_on "_" rest) "")
         then String.concat "_" (removelast (split_on "_" rest))
         else rest).
Proof.
  intros Ha Hb. unfold extract_subject_id.
  replace (a +s+ "_" +s+ b +s+ "_" +s+ rest +s+ "_epoched.feather")
    with ((a +s+ "_" +s+ b +s+ "_" +s+ rest) +s+ "_epoched.feather")
    by (now rewrite !string_app_assoc).
  rewrite splitext_epoched.
  replace ((a +s+ "_" +s+ b +s+ "_" +s+ rest) +s+ "_epoched")
    with (a +s+ String "_" (b +s+ String "_" (rest +s+ String "_" "epoched")))
    by (now rewrite !string_app_assoc).
  rewrite !split_on_app, (split_on_absent _ a Ha), (split_on_absent _ b Hb).
  change (split_on "_" "epoched") with ["epoched"].
  pose proof (split_on_nonempty "_" rest) as Hne.
  pose proof (concat_split_on "_" rest) as Hjoin.
  set (parts := split_on "_" rest) in *.
  cbn [app]. cbn [length]. rewrite length_app. cbn [length].
  replace (S (S (length parts + 1)) - 2) with (S (S (length parts - 1))) by lia.
  cbn [nth_error]. rewrite nth_error_app1 by lia.
  rewrite (last_nth_error parts "") by (intros ->; simpl in Hne; lia).
  destruct (Nat.ltb_spec (S (S (length parts + 1))) 2) as [Hlt | _]; [lia |].
  cbn [skipn].
  destruct (contains "epoched" (last parts "")).
  - replace (S (S (length parts + 1)) - 4) with (pred (length parts)) by lia.
    rewrite firstn_app.
    replace (pred (length parts) - length parts) with 0 by lia.
    cbn [firstn]. rewrite app_nil_r, <- removelast_firstn_len. reflexivity.
  - replace (S (S (length parts + 1)) - 3) with (length parts) by lia.
    rewrite firstn_app, Nat.sub_diag, firstn_all. cbn [firstn].
    rewrite app_nil_r. now rewrite Hjoin.
Qed.

(** X21.  For an exported name [a_b_<rest>_epoched.feather], where [a]
    and [b] hold no underscore, [extract_subject_id] returns [rest]: the
    name without its first two fields and its suffix.  The one exception
    is a [rest] whose last underscore-separated field contains
    ["epoched"]: that field is dropped as well. *)
Theorem extract_subject_id_drops_two_fields (a b rest : string) :
  has_char "_" a = false ->
  has_char "_" b = false ->
  let name := a +s+ "_" +s+ b +s+ "_" +s+ rest +s+ "_epoched.feather" in
  (contains "epoched" (last (split_on "_" rest) "") = false ->
   extract_subject_id name = inr rest) /\
  (contains "epoched" (last (split_on "_" rest) "") = true ->
   extract_subject_id name
   = inr (String.concat "_" (removelast (split_on "_" rest)))).
Proof.
  intros Ha Hb name. subst name.
  rewrite (extract_subject_id_of_export a b rest Ha Hb).
  split; intros ->; reflexivity.
Qed.

Lemma extract_subject_id_drops_two_fields_witness :
  (contains "epoched" (last (split_on "_" "BR2_0000210#01") "") = false ->
   extract_subject_id "EXP_EMC_BR2_0000210#01_epoched.feather"
   = inr "BR2_0000210#01") /\
  (contains "epoched" (last (split_on "_" "BR2_0000210#01") "") = true ->
   extract_subject_id "EXP_EMC_BR2_0000210#01_epoched.feather"
   = inr (String.concat "_" (removelast (split_on "_" "BR2_0000210#01")))).
Proof.
  apply (extract_subject_id_drops_two_fields "EXP" "EMC" "BR2_0000210#01");
    reflexivity.
Defined.

(** X22.  For a recording [a_b_<rest>.edf] taken from a directory
    listing, the export step writes one file, named
    [a_b_<rest>_epoched.feather] under the output directory, and gives
    every row of the table the subject identifier [rest]. *)
Theorem export_epochs_names_file_and_subject
    (C : Config) (a b rest : string) (df : EpochTable) :
  has_char "_" a = false ->
  has_char "_" b = false ->
  has_char "/" (a +s+ "_" +s+ b +s+ "_" +s+ rest) = false ->
  contains "epoched" (last (split_on "_" rest) "") = false ->
  export_epochs C (a +s+ "_" +s+ b +s+ "_" +s+ rest +s+ ".edf") df
  = ([ToFeather (path_join (output_path C)
                   (a +s+ "_" +s+ b +s+ "_" +s+ rest +s+ "_epoched.feather"))
                (map (pair rest) df);
      Printed "Exported data to FEATHER"],
     inr tt).
Proof.
  intros Ha Hb Hslash Hlast.
  unfold export_epochs, df_conversion.
  replace (a +s+ "_" +s+ b +s+ "_" +s+ rest +s+ ".edf")
    with ((a +s+ "_" +s+ b +s+ "_" +s+ rest) +s+ ".edf")
    by (now rewrite !string_app_assoc).
  rewrite splitext_edf; [| exact Hslash |].
  - cbn [fst].
    replace ((a +s+ "_" +s+ b +s+ "_" +s+ rest) +s+ "_epoched.feather")
      with (a +s+ "_" +s+ b +s+ "_" +s+ rest +s+ "_epoched.feather")
      by (now rewrite !string_app_assoc).
    rewrite (extract_subject_id_of_export a b rest Ha Hb), Hlast.
    reflexivity.
  - exact (only_dots_underscore a (b +s+ "_" +s+ rest)).
Qed.

Lemma export_epochs_names_file_and_subject_witness :
  export_epochs config_example "EXP_EMC_BR2_0000210#01.edf"
                table_one_seizure_epoch
  = ([ToFeather (path_join (output_path config_example)
                           "EXP_EMC_BR2_0000210#01_epoched.feather")
                (map (pair "BR2_0000210#01") table_one_seizure_epoch);
      Printed "Exported data to FEATHER"],
     inr tt).
Proof.
  apply (export_epochs_names_file_and_subject
           config_example "EXP" "EMC" "BR2_0000210#01" table_one_seizure_epoch);
    reflexivity.
Defined.

Lemma existsb_eqb_In (x : string) (l : list string) :
  existsb (String.eqb x) l = true <-> In x l.
Proof.
  rewrite existsb_exists. split.
  - intros [y [Hy Heq]]. apply String.eqb_eq in Heq. now subst.
  - intros H. exists x. split; [exact H | apply String.eqb_refl].
Qed.

(** X23.  The check for missing output files looks for the name the
    export step writes: a recording [<stem>.edf] of the list is reported
    missing exactly when the file that [export_epochs] would write for it
    is not among the files found. *)
Theorem missing_files_agrees_with_export
    (C : Config) (seizure_files files_epoched : list string) (stem : string)
    (df : EpochTable) :
  has_char "/" stem = false ->
  only_dots stem = false ->
  In (stem +s+ ".edf") seizure_files ->
  (In (stem +s+ ".edf") (missing_files seizure_files files_epoched) <->
   ~ In (stem +s+ "_epoched.feather") files_epoched) /\
  map fst (feather_files (output (export_epochs C (stem +s+ ".edf") df)))
  = [path_join (output_path C) (stem +s+ "_epoched.feather")].
Proof.
  intros Hslash Hdots Hin. split.
  - unfold missing_files. rewrite filter_In.
    change ".edf" with (String "." (String "e" (String "d" (String "f" "")))).
    rewrite drop_last4_extension.
    rewrite negb_true_iff, <- not_true_iff_false, existsb_eqb_In.
    tauto.
  - destruct (export_epochs_writes C (stem +s+ ".edf") df) as [subject [_ Hw]].
    rewrite Hw, (splitext_edf stem Hslash Hdots). reflexivity.
Qed.

Lemma missing_files_agrees_with_export_witness :
  (In "EXP_EMC_BR2_0000210#01.edf"
      (missing_files ["EXP_EMC_BR2_0000210#01.edf"; "EXP_EMC_BR3_0000495#01.edf"]
                     ["EXP_EMC_BR3_0000495#01_epoched.feather"]) <->
   ~ In "EXP_EMC_BR2_0000210#01_epoched.feather"
        ["EXP_EMC_BR3_0000495#01_epoched.feather"]) /\
  map fst (feather_files (output (export_epochs config_example
                           "EXP_EMC_BR2_0000210#01.edf" table_one_seizure_epoch)))
  = [path_join (output_path config_example)
               "EXP_EMC_BR2_0000210#01_epoched.feather"].
Proof.
  apply (missing_files_agrees_with_export
           config_example
           ["EXP_EMC_BR2_0000210#01.edf"; "EXP_EMC_BR3_0000495#01.edf"]
           ["EXP_EMC_BR3_0000495#01_epoched.feather"]
           "EXP_EMC_BR2_0000210#01" table_one_seizure_epoch).
  - reflexivity.
  - reflexivity.
  - left. reflexivity.
Defined.

(** For a name of dots only the two steps disagree: [file[:-4]] cuts the
    last four characters, [os.path.splitext] cuts nothing. *)
Example names_disagree_on_dots :
  drop_last4 "..edf" = "." /\ fst (splitext "..edf") = "..edf".
Proof. split; reflexivity. Qed.


(** ** Large files: the interictal intervals *)

(** X25.  The cell builds its interval table only for a non-empty
    seizure table: on an empty one the loop does nothing and
    [seizures.iloc[-1, 1]] raises [IndexError]. *)
Theorem interictal_intervals_requires_a_seizure
    (seizures : list Interval) (raw : Raw) :
  ((exists intervals, value (interictal_intervals seizures raw) = inr intervals)
   <-> seizures <> []) /\
  (seizures = [] ->
   exists msg, value (interictal_intervals seizures raw) = inl (IndexError msg)).
Proof.
  rewrite interictal_intervals_value.
  destruct (rev seizures) as [| iv r] eqn:Hrev.
  - assert (seizures = []) as ->.
    { apply (f_equal (@rev _)) in Hrev. now rewrite rev_involutive in Hrev. }
    split; [split |].
    + intros [t H]. discriminate.
    + congruence.
    + intros _. eexists. reflexivity.
  - assert (Hne : seizures <> []).
    { intros ->. discriminate. }
    split; [split |].
    + intros _. exact Hne.
    + intros _. eexists. reflexivity.
    + intros H. contradiction.
Qed.

Lemma gaps_before_avoid (rest : list Interval) :
  forall previous_end,
    well_formed rest -> separated rest ->
    Forall (fun iv => (previous_end <= onset iv)%Q) rest ->
    forall g, In g (gaps_before previous_end rest) ->
      (previous_end <= fst g)%Q /\ (fst g <= snd g)%Q /\
      forall iv, In iv rest ->
        (snd g <= onset iv)%Q \/ (end_ iv <= fst g)%Q.
Proof.
  induction rest as [| a rest IH]; intros e Hwf Hsep Hlow g Hg;
    [contradiction |].
  pose proof (separated_later_onsets a rest Hwf Hsep) as Hlater.
  inversion Hwf as [| ? ? Ha Hwf']; subst.
  inversion Hlow as [| ? ? Hea _]; subst.
  assert (Hsep' : separated rest) by now apply (separated_suffix [a] rest).
  cbn [gaps_before] in Hg. destruct Hg as [<- | Hg].
  - cbn [fst snd]. split; [apply Qle_refl |]. split; [exact Hea |].
    intros iv [<- | Hiv]; left; [apply Qle_refl |].
    rewrite Forall_forall in Hlater. specialize (Hlater iv Hiv).
    apply Qlt_le_weak. eapply Qle_lt_trans; eassumption.
  - destruct (IH (end_ a) Hwf' Hsep') with (g := g) as [Hlo [Hord Havoid]].
    + eapply Forall_impl; [| exact Hlater]. intros b Hb. now apply Qlt_le_weak.
    + exact Hg.
    + split; [| split].
      * eapply Qle_trans; [exact Hea |]. eapply Qle_trans; eassumption.
      * exact Hord.
      * intros iv [<- | Hiv]; [right; exact Hlo | now apply Havoid].
Qed.

(** X26.  When the seizures of the table are in order and do not overlap
    (none ends before it starts, each ends before the next starts, the
    first starts at or after time 0), every interval the loop builds, that
    is every row but the final one, runs forwards and meets no seizure:
    it stops by the seizure's onset or starts at or after its end. *)
Theorem loop_intervals_avoid_every_seizure
    (seizures : list Interval) (raw : Raw) :
  seizures <> [] ->
  well_formed seizures ->
  separated seizures ->
  Forall (fun iv => (0 <= onset iv)%Q) seizures ->
  exists intervals,
    interictal_intervals seizures raw = ret intervals /\
    forall x g, x < length seizures -> nth_error intervals x = Some g ->
      (start g <= stop g)%Q /\
      forall iv, In iv seizures ->
        (stop g <= onset iv)%Q \/ (end_ iv <= start g)%Q.
Proof.
  intros Hne Hwf Hsep Hpos.
  rewrite interictal_intervals_value.
  destruct (rev seizures) as [| last r] eqn:Hrev.
  { exfalso. apply Hne. apply (f_equal (@rev _)) in Hrev.
    now rewrite rev_involutive in Hrev. }
  eexists. split; [reflexivity |].
  intros x g Hx Hg.
  rewrite map_app, nth_error_app1 in Hg
    by (now rewrite length_map, gaps_before_length).
  rewrite nth_error_map in Hg.
  destruct (nth_error (gaps_before 0 seizures) x) as [p |] eqn:Hp;
    [| discriminate].
  injection Hg as <-. cbn [start stop].
  apply nth_error_In in Hp.
  destruct (gaps_before_avoid seizures 0%Q Hwf Hsep Hpos p Hp)
    as [_ [Hord Havoid]].
  split; [exact Hord | exact Havoid].
Qed.

Lemma loop_intervals_avoid_every_seizure_witness :
  exists intervals,
    interictal_intervals two_seizure_intervals raw_two_seizures = ret intervals /\
    forall x g, x < length two_seizure_intervals ->
      nth_error intervals x = Some g ->
      (start g <= stop g)%Q /\
      forall iv, In iv two_seizure_intervals ->
        (stop g <= onset iv)%Q \/ (end_ iv <= start g)%Q.
Proof.
  apply (loop_intervals_avoid_every_seizure two_seizure_intervals raw_two_seizures).
  - discriminate.
  - repeat constructor; cbn; discriminate.
  - cbn. split; [reflexivity | exact I].
  - repeat constructor; cbn; discriminate.
Defined.

(** X27.  The final interval does not have that property.  Its start is
    the last seizure's duration, so when that seizure is no longer than
    the time that precedes it and ends by one second before the
    recording's last sample, the final interval, labelled interictal like
    the others, contains the whole seizure. *)
Theorem final_interval_contains_last_seizure
    (before : list Interval) (iv : Interval) (raw : Raw) :
  (duration iv <= onset iv)%Q ->
  (end_ iv <= last_end raw)%Q ->
  exists intervals g,
    interictal_intervals (before ++ [iv]) raw = ret intervals /\
    nth_error intervals (length (before ++ [iv])) = Some g /\
    label g = "interictal" /\
    (start g <= onset iv)%Q /\ (end_ iv <= stop g)%Q.
Proof.
  intros Hshort Hinside.
  rewrite interictal_intervals_value, rev_app_distr. cbn [rev app].
  eexists. exists (mkGap (duration iv) (last_end raw) "interictal").
  split; [reflexivity |]. split; [| split; [reflexivity | split; assumption]].
  rewrite map_app.
  rewrite nth_error_app2 by (rewrite length_map, gaps_before_length; lia).
  rewrite length_map, gaps_before_length, Nat.sub_diag. reflexivity.
Qed.

Lemma final_interval_contains_last_seizure_witness :
  exists intervals g,
    interictal_intervals
      ([mkInterval 12 10 22] ++ [mkInterval 100 20 120])%Q raw_two_seizures
      = ret intervals /\
    nth_error intervals
              (length ([mkInterval 12 10 22] ++ [mkInterval 100 20 120])%Q)
      = Some g /\
    label g = "interictal" /\
    (start g <= onset (mkInterval 100 20 120))%Q /\
    (end_ (mkInterval 100 20 120) <= stop g)%Q.
Proof.
  apply (final_interval_contains_last_seizure
           [mkInterval 12 10 22]%Q (mkInterval 100 20 120)%Q raw_two_seizures).
  - cbn. discriminate.
  - vm_compute. discriminate.
Defined.

(** ** The path cell and the export *)

(** On a directory string [df_conversion_at] is [df_conversion]. *)
Lemma df_conversion_at_string (df : EpochTable) (folder name : string) :
  df_conversion_at df (PathStr folder) name = df_conversion df folder name.
Proof.
  unfold df_conversion_at, df_conversion, join_folder.
  destruct (extract_subject_id name); reflexivity.
Qed.

(** X28.  The path cell binds [output_path] to the pair [define_paths]
    returns, not to a directory: whenever the cell gets that far (on
    Windows only), [df_conversion] called with that value raises
    [TypeError] at [os.path.join] for every table and file name, and
    writes nothing. *)
Theorem path_cell_output_path_is_refused
    (system : string) (join : string -> string -> string)
    (project_dir project_path data_path : string) (output_path : path_value) :
  path_cell system join project_dir = inr (project_path, data_path, output_path) ->
  system = "Windows" /\
  output_path = PathPair (join "Z:/" project_dir)
                         (join (join "Z:/" project_dir)
                               "_04_Epoched_Data/FEATHER/") /\
  forall df output_filename,
    (exists msg,
       value (df_conversion_at df output_path output_filename)
       = inl (TypeError msg)) /\
    feather_files (output (df_conversion_at df output_path output_filename)) = [].
Proof.
  unfold path_cell, define_paths.
  destruct (String.eqb_spec system "Windows") as [-> | Hw].
  - cbn. intros H. injection H as <- <- <-.
    split; [reflexivity |]. split; [reflexivity |].
    intros df name. split; [eexists |]; reflexivity.
  - destruct (String.eqb_spec system "Linux") as [-> | Hl]; cbn; discriminate.
Qed.

Lemma path_cell_output_path_is_refused_witness :
  "Windows" = "Windows" /\
  PathPair (path_join "Z:/" "project")
           (path_join (path_join "Z:/" "project") "_04_Epoched_Data/FEATHER/")
  = PathPair (path_join "Z:/" "project")
             (path_join (path_join "Z:/" "project")
                        "_04_Epoched_Data/FEATHER/") /\
  forall df output_filename,
    (exists msg,
       value (df_conversion_at df
                (PathPair (path_join "Z:/" "project")
                          (path_join (path_join "Z:/" "project")
                                     "_04_Epoched_Data/FEATHER/"))
                output_filename)
       = inl (TypeError msg)) /\
    feather_files
      (output (df_conversion_at df
                 (PathPair (path_join "Z:/" "project")
                           (path_join (path_join "Z:/" "project")
                                      "_04_Epoched_Data/FEATHER/"))
                 output_filename)) = [].
Proof.
  apply (path_cell_output_path_is_refused
           "Windows" path_join "project"
           (path_join "Z:/" "project")
           (path_join (path_join "Z:/" "project") "_01_Raw_Data/EDF/")).
  reflexivity.
Defined.
